(** * single-spa-css: the link-element lifecycle adapter

    A shallow embedding of [src/single-spa-css.ts].  The adapter is a closure
    over its resolved options, the stylesheet array and two mutable
    variables ([linkElements], [linkElementsToUnmount]); its three lifecycle
    functions act on the browser (document, promises, event listeners,
    microtask queue).  All of that is threaded through a small state monad.

    Modelling decisions, each stated where the definition is given:
    - JS arrays live in a store and are referred to by location, because
      [Object.assign] copies the reference to the caller's array;
    - an element is a node identity with a tag and an attribute list; the
      document is the list of children of [head] followed by the elements
      of the rest of the tree, in tree order;
    - the selector text that the source builds by splicing the URL between
      double quotes is read as CSS reads it: a backslash starts an escape, a
      double quote or a line break ends the string; a text that is not a
      selector makes [querySelector] throw, and a text that is another
      selector than the one intended is left to the browser's selector
      engine, about which nothing is assumed;
    - a promise is a cell of a promise table; an executor that throws
      rejects its promise; a listener and a microtask are the closures of
      the source, defunctionalised;
    - [linkElements] is a plain object: its own properties are a finite map,
      and an assignment to [__proto__] adds none. *)

From Stdlib Require Import ZArith NArith Ascii.
From stdpp Require Import gmap strings list fin_maps.

Open Scope string_scope.
Open Scope list_scope.

(** ** Values *)

(** What reading a [shouldUnmount] property can give: the declared type is
    [boolean], and a property that is there but holds [undefined] reads as
    [undefined]. *)
Inductive JsFlag : Type :=
| FlagUndefined
| FlagBool (b : bool).

(** The test of [if (shouldUnmount)]. *)
Definition truthy (f : JsFlag) : bool :=
  match f with
  | FlagBool b => b
  | FlagUndefined => false
  end.

(** [type CssUrl = string | { href: string; shouldUnmount: boolean }].
    For the object shape, [None] says that the object has no own
    [shouldUnmount] property (what [hasOwnProperty] tests). *)
Inductive CssUrl : Type :=
| CssUrlString (url : string)
| CssUrlObject (href : string) (own_shouldUnmount : option JsFlag).

(** ** Elements and the document *)

Definition Attributes := list (string * string).

Fixpoint getAttribute (name : string) (attrs : Attributes) : option string :=
  match attrs with
  | [] => None
  | (k, v) :: rest => if String.eqb k name then Some v else getAttribute name rest
  end.

Fixpoint setAttribute (name value : string) (attrs : Attributes) : Attributes :=
  match attrs with
  | [] => [(name, value)]
  | (k, v) :: rest =>
      if String.eqb k name then (k, value) :: rest
      else (k, v) :: setAttribute name value rest
  end.

(** An HTML element: [tagName] is its local name, in lower case as the
    parser and [createElement] store it. *)
Record Element : Type := mkElement {
  node_id : nat;
  tagName : string;
  attributes : Attributes;
}.

Definition set_attr (name value : string) (e : Element) : Element :=
  {| node_id := node_id e; tagName := tagName e;
     attributes := setAttribute name value (attributes e) |}.

(** The children of [document.head], then every other element of the tree,
    both in tree order; [doc_next] is the identity the next created node
    gets. *)
Record Document : Type := mkDocument {
  doc_head : list Element;
  doc_body : list Element;
  doc_next : nat;
}.

Definition doc_elements (d : Document) : list Element := doc_head d ++ doc_body d.

Definition same_node (e1 e2 : Element) : bool := Nat.eqb (node_id e1) (node_id e2).

(** ** Selectors *)

(** A compound selector [tag[k1="v1"][k2="v2"]...]. *)
Record Selector : Type := mkSelector {
  sel_tag : string;
  sel_attrs : list (string * string);
}.

Definition ascii_lowercase (c : ascii) : ascii :=
  let n := nat_of_ascii c in
  if Nat.leb 65 n && Nat.leb n 90 then ascii_of_nat (n + 32) else c.

Fixpoint lowercase (s : string) : string :=
  match s with
  | EmptyString => EmptyString
  | String c rest => String (ascii_lowercase c) (lowercase rest)
  end.

(** How an attribute selector compares the value of the attribute [name]
    on an HTML element.  HTML has a list of attributes whose values a
    selector compares ASCII case-insensitively; of the three attributes the
    source selects on, [rel] is on that list, [as] and [href] are not. *)
Definition attribute_value_eqb (name value wanted : string) : bool :=
  if String.eqb name "rel" then String.eqb (lowercase value) (lowercase wanted)
  else String.eqb value wanted.

(** [[name="wanted"]] on an element with the attributes [attrs]. *)
Definition attribute_test (attrs : Attributes) (test : string * string) : bool :=
  match getAttribute (fst test) attrs with
  | Some value => attribute_value_eqb (fst test) value (snd test)
  | None => false
  end.

Definition matches (sel : Selector) (e : Element) : bool :=
  String.eqb (tagName e) (sel_tag sel)
  && forallb (attribute_test (attributes e)) (sel_attrs sel).

(** The selector [link[rel="stylesheet"][href=...]] with the value [url]
    asked of [href]: the stylesheet links of [url]. *)
Definition stylesheet_selector (url : string) : Selector :=
  {| sel_tag := "link"; sel_attrs := [("rel", "stylesheet"); ("href", url)] |}.

(** The selector [link[rel="preload"][as="style"][href=...]] with the value
    [url] asked of [href]: the preload hints of [url]. *)
Definition preload_selector (url : string) : Selector :=
  {| sel_tag := "link";
     sel_attrs := [("rel", "preload"); ("as", "style"); ("href", url)] |}.

(** *** The selector text

    The source does not build a selector, it builds a text:
    [`link[rel="stylesheet"][href="${url}"]`].  The URL lands inside a
    double-quoted CSS string, and the browser reads the text by the rules
    of CSS. *)

Definition double_quote : string := String (ascii_of_nat 34) EmptyString.

(** [`link[rel="stylesheet"][href="${url}"]`] *)
Definition stylesheet_selector_text (url : string) : string :=
  "link[rel=" +:+ double_quote +:+ "stylesheet" +:+ double_quote
  +:+ "][href=" +:+ double_quote +:+ url +:+ double_quote +:+ "]".

(** [`link[rel="preload"][as="style"][href="${url}"]`] *)
Definition preload_selector_text (url : string) : string :=
  "link[rel=" +:+ double_quote +:+ "preload" +:+ double_quote
  +:+ "][as=" +:+ double_quote +:+ "style" +:+ double_quote
  +:+ "][href=" +:+ double_quote +:+ url +:+ double_quote +:+ "]".

Definition has_code (n : N) (c : ascii) : bool := N.eqb (N_of_ascii c) n.

(** Line feed, form feed and carriage return: the newlines of CSS. *)
Definition is_newline (c : ascii) : bool :=
  has_code 10 c || has_code 12 c || has_code 13 c.

Definition hex_digit (c : ascii) : option N :=
  let n := N_of_ascii c in
  if N.leb 48 n && N.leb n 57 then Some (n - 48)%N
  else if N.leb 65 n && N.leb n 70 then Some (n - 55)%N
  else if N.leb 97 n && N.leb n 102 then Some (n - 87)%N
  else None.

(** None of the characters with the codes [codes] occurs in [s]. *)
Fixpoint free_of (codes : list N) (s : string) : bool :=
  match s with
  | EmptyString => true
  | String c rest => negb (existsb (fun n => has_code n c) codes) && free_of codes rest
  end.

(** What the text is, read as a selector:
    - [Asks value]: the selector that was meant, with [value] asked of
      [href];
    - [Invalid]: not a selector at all; [querySelector] throws a
      [SyntaxError];
    - [Unread]: a text that this model does not read.  It may be another
      selector (a URL can close the string and the bracket and go on with
      selector text of its own) or none. *)
Inductive Reading : Type :=
| Asks (value : string)
| Invalid
| Unread.

Definition prepend (c : ascii) (r : Reading) : Reading :=
  match r with
  | Asks value => Asks (String c value)
  | Invalid => Invalid
  | Unread => Unread
  end.

(** Where the reader is inside the string: between characters, after a
    backslash, or after a backslash and [digits] hexadecimal digits that
    spell [code] so far. *)
Inductive ScanState : Type :=
| InString
| AfterBackslash
| InHex (code : N) (digits : nat).

(** The character a hexadecimal escape stands for, put in front of what
    follows.  Strings are byte strings here, so only the escapes of ASCII
    characters are read; the escape of zero stands for U+FFFD in CSS. *)
Definition escaped (code : N) (r : Reading) : Reading :=
  if N.ltb 0 code && N.ltb code 128 then prepend (ascii_of_N code) r else Unread.

(** Reading the URL as the body of a double-quoted CSS string that the
    text closes with a double quote and a bracket right after the URL.
    - A backslash before a hexadecimal digit starts an escape of up to six
      digits, ended by one optional white space; before a newline it is a
      line continuation; before any other character it stands for that
      character.
    - A newline that is not escaped ends the string badly: the text is not
      a selector.
    - A double quote that is not escaped ends the string before the text
      means it to.  If what follows in the URL has no closing bracket, no
      comment and no escape, the closing quote of the text then opens or
      ends a second string inside the same brackets, and the text is not a
      selector.  Otherwise the text is not read here.
    - Not read either: a URL that ends in a backslash (it escapes the
      closing quote), a NUL character, a carriage return in an escape, and
      the escape of a character that is not ASCII. *)
Fixpoint scan (st : ScanState) (url : string) : Reading :=
  match url with
  | EmptyString =>
      match st with
      | InString => Asks EmptyString
      | AfterBackslash => Unread
      | InHex code _ => escaped code (Asks EmptyString)
      end
  | String c rest =>
      let unescaped :=
        if has_code 34 c then (if free_of [93; 47; 92]%N rest then Invalid else Unread)
        else if is_newline c then Invalid
        else if has_code 92 c then scan AfterBackslash rest
        else if has_code 0 c then Unread
        else prepend c (scan InString rest) in
      match st with
      | InString => unescaped
      | AfterBackslash =>
          match hex_digit c with
          | Some d => scan (InHex d 1) rest
          | None =>
              if has_code 13 c || has_code 0 c then Unread
              else if is_newline c then scan InString rest
              else prepend c (scan InString rest)
          end
      | InHex code digits =>
          match hex_digit c with
          | Some d =>
              if Nat.ltb digits 6 then scan (InHex (16 * code + d) (S digits)) rest
              else escaped code unescaped
          | None =>
              if has_code 13 c then Unread
              else if has_code 32 c || has_code 9 c || is_newline c
              then escaped code (scan InString rest)
              else escaped code unescaped
          end
      end
  end.

Definition read_interpolated (url : string) : Reading := scan InString url.

(** The URL is read as itself: the text is the selector that was meant. *)
Definition plain (url : string) : Prop := read_interpolated url = Asks url.

(** The text is a selector of the shape that was meant, whatever value it
    asks of [href]. *)
Definition readable (url : string) : Prop :=
  exists value, read_interpolated url = Asks value.

(** A character that stands for itself in a double-quoted CSS string. *)
Definition ordinary (c : ascii) : bool :=
  negb (has_code 34 c || has_code 92 c || is_newline c || has_code 0 c).

Fixpoint all_ordinary (s : string) : bool :=
  match s with
  | EmptyString => true
  | String c rest => ordinary c && all_ordinary rest
  end.

(** What [document.querySelector] does: it returns the first element that
    the selector selects, or [null]; or it throws. *)
Inductive QueryResult : Type :=
| Selected (found : option Element)
| SyntaxError.

(** A template literal with one hole for the URL: its text, and the
    selector it is when the URL is read as the value [value] of [href]. *)
Record Template : Type := mkTemplate {
  template_text : string -> string;
  template_selector : string -> Selector;
}.

Definition stylesheet_template : Template :=
  {| template_text := stylesheet_selector_text; template_selector := stylesheet_selector |}.

Definition preload_template : Template :=
  {| template_text := preload_selector_text; template_selector := preload_selector |}.

(** ** Promises, listeners, microtasks *)

Inductive PromiseState : Type := Pending | Fulfilled | Rejected.

Inductive EventType : Type := LoadEvent | ErrorEvent.

Definition EventType_eqb (a b : EventType) : bool :=
  match a, b with
  | LoadEvent, LoadEvent | ErrorEvent, ErrorEvent => true
  | _, _ => false
  end.

(** [linkEl.addEventListener(type, () => { resolve(); })]: the only listener
    the source installs calls the [resolve] of one promise. *)
Record Listener : Type := mkListener {
  lis_target : nat;
  lis_type : EventType;
  lis_resolves : nat;
}.

(** The callback of [Promise.resolve().then(() => { ... })] in [unmount],
    with the [linkEl] and [url] it captured and the promise [then] returned. *)
Record Job : Type := mkJob {
  job_linkEl : Element;
  job_url : string;
  job_promise : nat;
}.

Definition loc := nat.

(** [selector_engine] is what the browser answers to a selector text that
    the model does not read.  Nothing is assumed about it. *)
Record Browser : Type := mkBrowser {
  arrays : gmap loc (list CssUrl);
  document : Document;
  promises : list PromiseState;
  listeners : list Listener;
  microtasks : list Job;
  selector_engine : string -> Document -> QueryResult;
}.

(** The browser together with the two variables the lifecycle functions
    close over.  [linkElements] holds the own properties of the object
    [{}]. *)
Record State : Type := mkState {
  browser : Browser;
  linkElements : gmap string Element;
  linkElementsToUnmount : list (Element * string);
}.

Definition with_arrays (f : gmap loc (list CssUrl) -> gmap loc (list CssUrl)) (b : Browser) : Browser :=
  {| arrays := f (arrays b); document := document b; promises := promises b;
     listeners := listeners b; microtasks := microtasks b;
     selector_engine := selector_engine b |}.

Definition with_document (f : Document -> Document) (b : Browser) : Browser :=
  {| arrays := arrays b; document := f (document b); promises := promises b;
     listeners := listeners b; microtasks := microtasks b;
     selector_engine := selector_engine b |}.

Definition with_promises (f : list PromiseState -> list PromiseState) (b : Browser) : Browser :=
  {| arrays := arrays b; document := document b; promises := f (promises b);
     listeners := listeners b; microtasks := microtasks b;
     selector_engine := selector_engine b |}.

Definition with_listeners (f : list Listener -> list Listener) (b : Browser) : Browser :=
  {| arrays := arrays b; document := document b; promises := promises b;
     listeners := f (listeners b); microtasks := microtasks b;
     selector_engine := selector_engine b |}.

Definition with_microtasks (f : list Job -> list Job) (b : Browser) : Browser :=
  {| arrays := arrays b; document := document b; promises := promises b;
     listeners := listeners b; microtasks := f (microtasks b);
     selector_engine := selector_engine b |}.

Definition with_browser (f : Browser -> Browser) (s : State) : State :=
  {| browser := f (browser s); linkElements := linkElements s;
     linkElementsToUnmount := linkElementsToUnmount s |}.

Definition with_linkElements (f : gmap string Element -> gmap string Element) (s : State) : State :=
  {| browser := browser s; linkElements := f (linkElements s);
     linkElementsToUnmount := linkElementsToUnmount s |}.

Definition with_linkElementsToUnmount
    (f : list (Element * string) -> list (Element * string)) (s : State) : State :=
  {| browser := browser s; linkElements := linkElements s;
     linkElementsToUnmount := f (linkElementsToUnmount s) |}.

(** [object[key] = value] on a plain object.  Every key but [__proto__]
    becomes an own property; for [__proto__] the assignment goes to the
    setter that [Object.prototype] defines, which changes the prototype and
    adds no own property (nothing in the source reads the registry, so the
    prototype is not modelled). *)
Definition assign_property (key : string) (value : Element)
    (object : gmap string Element) : gmap string Element :=
  if String.eqb key "__proto__" then object else <[key := value]> object.

(** ** The state monad *)

Definition M (A : Type) : Type := State -> A * State.

Definition ret {A} (a : A) : M A := fun s => (a, s).

Definition bind {A B} (m : M A) (k : A -> M B) : M B :=
  fun s => let (a, s') := m s in k a s'.

Definition gets {A} (f : State -> A) : M A := fun s => (f s, s).

Definition modify (f : State -> State) : M unit := fun s => (tt, f s).

Declare Scope js_scope.
Delimit Scope js_scope with js.
Notation "x <- m ;; k" := (bind m (fun x => k))
  (at level 100, m at next level, right associativity) : js_scope.
Notation "m ;; k" := (bind m (fun _ => k))
  (at level 100, right associativity) : js_scope.

(** [array.map(cb)] with an effectful callback, left to right. *)
Fixpoint mapM {A B} (f : A -> M B) (l : list A) : M (list B) :=
  match l with
  | [] => ret []
  | x :: rest => (y <- f x ;; ys <- mapM f rest ;; ret (y :: ys))%js
  end.

(** How a function body ends: it runs to its end, or a call in it throws. *)
Inductive Completion : Type := Normal | Abrupt.

(** ** Document operations *)

(** [document.querySelector(text)] for the text a template gives for [url],
    as a function of the browser. *)
Definition select (t : Template) (url : string) (b : Browser) : QueryResult :=
  match read_interpolated url with
  | Asks value =>
      Selected (List.find (matches (template_selector t value)) (doc_elements (document b)))
  | Invalid => SyntaxError
  | Unread => selector_engine b (template_text t url) (document b)
  end.

Definition querySelector (t : Template) (url : string) : M QueryResult :=
  gets (fun s => select t url (browser s)).

(** [document.createElement(tag)]: a new node without attributes, not yet
    in the tree. *)
Definition createElement (tag : string) : M Element :=
  fun s =>
    let d := document (browser s) in
    ({| node_id := doc_next d; tagName := tag; attributes := [] |},
     with_browser (with_document (fun d =>
       {| doc_head := doc_head d; doc_body := doc_body d; doc_next := S (doc_next d) |})) s).

(** [document.head.appendChild(linkEl)], for a node that is not in the tree
    (it is always one that was just created). *)
Definition appendChild_head (e : Element) : M unit :=
  modify (with_browser (with_document (fun d =>
    {| doc_head := doc_head d ++ [e]; doc_body := doc_body d; doc_next := doc_next d |}))).

(** [linkEl.parentNode] is non-null exactly when the node is in the tree. *)
Definition parentNode (e : Element) : M bool :=
  gets (fun s => existsb (same_node e) (doc_elements (document (browser s)))).

(** [linkEl.parentNode.removeChild(linkEl)] *)
Definition removeChild (e : Element) : M unit :=
  modify (with_browser (with_document (fun d =>
    {| doc_head := List.filter (fun x => negb (same_node e x)) (doc_head d);
       doc_body := List.filter (fun x => negb (same_node e x)) (doc_body d);
       doc_next := doc_next d |}))).

(** ** Promise operations *)

(** Calling [resolve()]: a pending promise becomes fulfilled, a settled one
    is left as it is. *)
Definition settle (p : nat) (ps : list PromiseState) : list PromiseState :=
  match ps !! p with
  | Some Pending => <[p := Fulfilled]> ps
  | _ => ps
  end.

Definition resolve (p : nat) : M unit :=
  modify (with_browser (with_promises (settle p))).

(** Rejecting: a pending promise becomes rejected, a settled one is left as
    it is. *)
Definition reject (p : nat) (ps : list PromiseState) : list PromiseState :=
  match ps !! p with
  | Some Pending => <[p := Rejected]> ps
  | _ => ps
  end.

(** [new Promise((resolve, reject) => { ... })]: the executor runs at once,
    holding the new promise's [resolve]; if it throws, the promise is
    rejected with what was thrown. *)
Definition new_Promise (executor : nat -> M Completion) : M nat :=
  (p <- (fun s => (length (promises (browser s)),
                   with_browser (with_promises (fun ps => ps ++ [Pending])) s)) ;;
   completion <- executor p ;;
   match completion with
   | Normal => ret tt
   | Abrupt => modify (with_browser (with_promises (reject p)))
   end ;;
   ret p)%js.

Definition addEventListener (e : Element) (ty : EventType) (p : nat) : M unit :=
  modify (with_browser (with_listeners (fun ls =>
    ls ++ [{| lis_target := node_id e; lis_type := ty; lis_resolves := p |}]))).

(** The state of [Promise.all(ps)] once its reactions have run: rejected as
    soon as one member is, fulfilled when all are, pending otherwise. *)
Definition Promise_all (table : list PromiseState) (ps : list nat) : PromiseState :=
  let states := map (fun p => default Pending (table !! p)) ps in
  if existsb (fun st => match st with Rejected => true | _ => false end) states
  then Rejected
  else if forallb (fun st => match st with Fulfilled => true | _ => false end) states
  then Fulfilled
  else Pending.

(** ** Options *)

(** What a link factory decides about the element it creates: its tag and
    its attributes.  The node itself is new at every call. *)
Record Markup : Type := mkMarkup {
  markup_tag : string;
  markup_attrs : Attributes;
}.

(** What the call [opts.createLink(url)] does: it returns a new element, or
    it throws. *)
Inductive FactoryResult : Type :=
| Builds (m : Markup)
| Throws.

Definition LinkFactory := string -> FactoryResult.

(** A [createLink] property that holds a value that cannot be called, such
    as [undefined]: the call throws a [TypeError] whatever the URL. *)
Definition not_callable : LinkFactory := fun _ => Throws.

(** The markup of the element a call returned. *)
Definition built (r : FactoryResult) : Markup :=
  match r with
  | Builds m => m
  | Throws => {| markup_tag := EmptyString; markup_attrs := [] |}
  end.

(** [type SingleSpaCssOpts]: the configuration as the caller gives it.  An
    optional property that is absent is [None]; [cssUrls] is a reference to
    the caller's array; an own [createLink] that holds [undefined] is
    [Some not_callable]. *)
Module Given.
Record SingleSpaCssOpts : Type := mk {
  cssUrls : loc;
  webpackExtractedCss : option bool;
  timeout : option Z;
  shouldUnmount : option JsFlag;
  createLink : option LinkFactory;
}.
End Given.

(** [Required<SingleSpaCssOpts>] *)
Record Opts : Type := mkOpts {
  cssUrls : loc;
  webpackExtractedCss : bool;
  timeout : Z;
  shouldUnmount : JsFlag;
  createLink : LinkFactory;
}.

(** The array literal [[]] of [defaultOptions.cssUrls] is one object of the
    module, at a location of its own. *)
Definition defaultOptions_cssUrls : loc := 0%nat.

Definition defaultOptions : Opts :=
  {| cssUrls := defaultOptions_cssUrls;
     webpackExtractedCss := false;
     timeout := 5000;
     shouldUnmount := FlagBool true;
     createLink := fun url =>
       Builds
         {| markup_tag := "link";
            markup_attrs := setAttribute "rel" "stylesheet" (setAttribute "href" url []) |} |}.

(** [Object.assign({}, defaultOptions, _opts)]: every own property of
    [_opts] overrides the default; the values are copied as they are, so
    [cssUrls] is the caller's array itself. *)
Definition Object_assign (defaults : Opts) (_opts : Given.SingleSpaCssOpts) : Opts :=
  {| cssUrls := Given.cssUrls _opts;
     webpackExtractedCss :=
       default (webpackExtractedCss defaults) (Given.webpackExtractedCss _opts);
     timeout := default (timeout defaults) (Given.timeout _opts);
     shouldUnmount := default (shouldUnmount defaults) (Given.shouldUnmount _opts);
     createLink := default (createLink defaults) (Given.createLink _opts) |}.

(** The globals of the webpack runtime that the source reads. *)
Record Webpack : Type := mkWebpack {
  webpack_cssAssets : list string;
  webpack_public_path : string;
  webpack_cssAssetFileName : string -> string;
}.

(** The constants a lifecycle closure captured. *)
Record Adapter : Type := mkAdapter {
  opts : Opts;
  allCssUrls : loc;
}.

(** [array.push(...items)] on the array at [l]. *)
Definition array_push (l : loc) (items : list CssUrl)
    (h : gmap loc (list CssUrl)) : gmap loc (list CssUrl) :=
  alter (fun a => a ++ items) l h.

Definition read_array (l : loc) : M (list CssUrl) :=
  gets (fun s => default [] (arrays (browser s) !! l)).

Definition singleSpaCss (wp : Webpack) (_opts : Given.SingleSpaCssOpts) (b : Browser)
    : Adapter * State :=
  let opts := Object_assign defaultOptions _opts in
  let allCssUrls := cssUrls opts in
  let b :=
    if webpackExtractedCss opts then
      with_arrays
        (array_push allCssUrls
           (map (fun fileName =>
                   CssUrlString (webpack_public_path wp
                                 +:+ webpack_cssAssetFileName wp fileName))
                (webpack_cssAssets wp)))
        b
    else b in
  ({| opts := opts; allCssUrls := allCssUrls |},
   {| browser := b; linkElements := ∅; linkElementsToUnmount := [] |}).

(** ** The URL extractor *)

Definition extractUrl (opts : Opts) (cssUrl : CssUrl) : string * JsFlag :=
  match cssUrl with
  | CssUrlString url => (url, shouldUnmount opts)
  | CssUrlObject href own =>
      (href,
       match own with
       | Some v => v
       | None => shouldUnmount opts
       end)
  end.

(** ** Lifecycle functions *)

(** Each lifecycle function returns [Promise.all] of a list of promises;
    the list is what the model returns, and [Promise_all] reads its state.
    An executor ends [Abrupt] where a call in it throws: at
    [querySelector], before anything is changed, and in [mount] at
    [opts.createLink], before anything is changed as well. *)

Definition bootstrap_executor (a : Adapter) (cssUrl : CssUrl) (resolve_p : nat)
    : M Completion :=
  (let (url, _) := extractUrl (opts a) cssUrl in
   preloadEl <- querySelector preload_template url ;;
   match preloadEl with
   | SyntaxError => ret Abrupt
   | Selected preloadEl =>
       match preloadEl with
       | None =>
           linkEl <- createElement "link" ;;
           let linkEl := set_attr "rel" "preload" linkEl in
           let linkEl := set_attr "as" "style" linkEl in
           let linkEl := set_attr "href" url linkEl in
           appendChild_head linkEl
       | Some _ => ret tt
       end ;;
       resolve resolve_p ;;
       ret Normal
   end)%js.

Definition bootstrap (a : Adapter) : M (list nat) :=
  (urls <- read_array (allCssUrls a) ;;
   mapM (fun cssUrl => new_Promise (bootstrap_executor a cssUrl)) urls)%js.

(** [opts.createLink(url)], when it returns: a new node with the factory's
    markup. *)
Definition call_createLink (f : LinkFactory) (url : string) : M Element :=
  (e <- createElement (markup_tag (built (f url))) ;;
   ret {| node_id := node_id e; tagName := tagName e;
          attributes := markup_attrs (built (f url)) |})%js.

Definition mount_executor (a : Adapter) (cssUrl : CssUrl) (resolve_p : nat)
    : M Completion :=
  (let (url, shouldUnmount) := extractUrl (opts a) cssUrl in
   existingLinkEl <- querySelector stylesheet_template url ;;
   match existingLinkEl with
   | SyntaxError => ret Abrupt
   | Selected (Some existingLinkEl) =>
       modify (with_linkElements (assign_property url existingLinkEl)) ;;
       resolve resolve_p ;;
       ret Normal
   | Selected None =>
       match createLink (opts a) url with
       | Throws => ret Abrupt
       | Builds _ =>
           linkEl <- call_createLink (createLink (opts a)) url ;;
           addEventListener linkEl LoadEvent resolve_p ;;
           modify (with_linkElements (assign_property url linkEl)) ;;
           appendChild_head linkEl ;;
           (if truthy shouldUnmount
            then modify (with_linkElementsToUnmount (fun q => q ++ [(linkEl, url)]))
            else ret tt) ;;
           ret Normal
       end
   end)%js.

Definition mount (a : Adapter) : M (list nat) :=
  (urls <- read_array (allCssUrls a) ;;
   mapM (fun cssUrl => new_Promise (mount_executor a cssUrl)) urls)%js.

(** [Promise.resolve().then(callback)]: the callback is queued as a
    microtask; the promise [then] returns is pending until it has run. *)
Definition Promise_resolve_then (linkEl : Element) (url : string) : M nat :=
  fun s =>
    let p := length (promises (browser s)) in
    (p,
     with_browser (fun b =>
       with_microtasks (fun q => q ++ [{| job_linkEl := linkEl; job_url := url;
                                          job_promise := p |}])
         (with_promises (fun ps => ps ++ [Pending]) b)) s).

Definition unmount (a : Adapter) : M (list nat) :=
  (elements <- gets linkElementsToUnmount ;;
   modify (with_linkElementsToUnmount (fun _ => [])) ;;
   mapM (fun entry => Promise_resolve_then (fst entry) (snd entry)) elements)%js.

(** ** The event loop *)

(** The body of the callback that [unmount] queued, then the fulfilment of
    the promise of [then]. *)
Definition run_job (j : Job) : M unit :=
  (modify (with_linkElements (delete (job_url j))) ;;
   attached <- parentNode (job_linkEl j) ;;
   (if attached then removeChild (job_linkEl j) else ret tt) ;;
   resolve (job_promise j))%js.

(** Runs the oldest microtask, if there is one. *)
Definition run_microtask : M unit :=
  (q <- gets (fun s => microtasks (browser s)) ;;
   match q with
   | [] => ret tt
   | j :: rest =>
       modify (with_browser (with_microtasks (fun _ => rest))) ;;
       run_job j
   end)%js.

(** Runs the microtasks until the queue is empty.  A job queues no job, so
    as many steps as the queue is long empty it. *)
Definition drain_microtasks : M unit :=
  (q <- gets (fun s => microtasks (browser s)) ;;
   _ <- mapM (fun _ => run_microtask) q ;;
   ret tt)%js.

(** The platform fires an event of type [ty] at the node [node]: the
    listeners installed for that type on that node run in order. *)
Definition dispatchEvent (ty : EventType) (node : nat) : M unit :=
  (ls <- gets (fun s => listeners (browser s)) ;;
   _ <- mapM (fun l =>
                if Nat.eqb (lis_target l) node && EventType_eqb (lis_type l) ty
                then resolve (lis_resolves l)
                else ret tt) ls ;;
   ret tt)%js.

(** What can happen to an adapter after it is built. *)
Inductive Action : Type :=
| CallBootstrap
| CallMount
| CallUnmount
| RunMicrotask
| Dispatch (ty : EventType) (node : nat).

Definition step (a : Adapter) (act : Action) : M unit :=
  match act with
  | CallBootstrap => (_ <- bootstrap a ;; ret tt)%js
  | CallMount => (_ <- mount a ;; ret tt)%js
  | CallUnmount => (_ <- unmount a ;; ret tt)%js
  | RunMicrotask => run_microtask
  | Dispatch ty node => dispatchEvent ty node
  end.

Fixpoint run (a : Adapter) (trace : list Action) : M unit :=
  match trace with
  | [] => ret tt
  | act :: rest => (step a act ;; run a rest)%js
  end.

(** ** The constructor on inputs its TypeScript types exclude

    The source states two requirements in comments ([_opts] is an object,
    [opts.cssUrls] is an array) and relies on the types for them.  This
    module replays the constructor on values that break them, with the
    outcome JavaScript gives. *)
Module Untyped.

Inductive Primitive : Type :=
| Undefined
| Null
| Boolean (b : bool)
| Number (z : Z)
| Str (s : string).

(** A value found under [cssUrls]: an array, a primitive, or an object
    that is not an array.  Such an object may bring a [push] method of its
    own. *)
Inductive CssUrlsValue : Type :=
| ArrayRef (l : loc)
| Prim (p : Primitive)
| OtherObject (has_push : bool).

(** The own properties of an object given as [_opts]. *)
Record Object : Type := mkObject {
  own_cssUrls : option CssUrlsValue;
  own_webpackExtractedCss : option bool;
  own_timeout : option Z;
  own_shouldUnmount : option JsFlag;
  own_createLink : option LinkFactory;
}.

Inductive Input : Type :=
| NotObject (p : Primitive)
| IsObject (o : Object).

(** What the constructor can throw.  [ValidationError] stands for an error
    raised by a check of the configuration; [TypeError] is what the engine
    raises when a method is missing. *)
Inductive Thrown : Type := ValidationError | TypeError.

(** How a call of the constructor ends: it returns, it throws, or it calls
    a method that the caller's value brought, and what happens from there
    is that method's doing. *)
Inductive Outcome (A : Type) : Type :=
| Returned (a : A)
| Threw (e : Thrown)
| Foreign.
Arguments Returned {A} a.
Arguments Threw {A} e.
Arguments Foreign {A}.

Record ResolvedOpts : Type := mkResolved {
  r_cssUrls : CssUrlsValue;
  r_webpackExtractedCss : bool;
  r_timeout : Z;
  r_shouldUnmount : JsFlag;
  r_createLink : LinkFactory;
}.

(** [Object.assign] skips [null] and [undefined]; a boolean or a number
    has no own enumerable property; a string has only index properties,
    none of which is an option.  So a primitive contributes nothing. *)
Definition own_properties (input : Input) : Object :=
  match input with
  | NotObject _ =>
      {| own_cssUrls := None; own_webpackExtractedCss := None;
         own_timeout := None; own_shouldUnmount := None; own_createLink := None |}
  | IsObject o => o
  end.

Definition Object_assign (defaults : Opts) (input : Input) : ResolvedOpts :=
  let o := own_properties input in
  {| r_cssUrls := default (ArrayRef (cssUrls defaults)) (own_cssUrls o);
     r_webpackExtractedCss :=
       default (webpackExtractedCss defaults) (own_webpackExtractedCss o);
     r_timeout := default (timeout defaults) (own_timeout o);
     r_shouldUnmount := default (shouldUnmount defaults) (own_shouldUnmount o);
     r_createLink := default (createLink defaults) (own_createLink o) |}.

(** The constants the lifecycle closures captured. *)
Record Closures : Type := mkClosures {
  cl_opts : ResolvedOpts;
  cl_allCssUrls : CssUrlsValue;
}.

(** [allCssUrls.push(...)] is the one thing the constructor does with the
    value: on an array it appends; on a value without a [push] method the
    call throws a [TypeError]; on an object with a [push] of its own that
    method is called. *)
Definition singleSpaCss (wp : Webpack) (_opts : Input) (b : Browser)
    : Outcome (Closures * State) :=
  let opts := Object_assign defaultOptions _opts in
  let allCssUrls := r_cssUrls opts in
  let built (b : Browser) :=
    Returned ({| cl_opts := opts; cl_allCssUrls := allCssUrls |},
              {| browser := b; linkElements := ∅; linkElementsToUnmount := [] |}) in
  if r_webpackExtractedCss opts then
    match allCssUrls with
    | ArrayRef l =>
        built (with_arrays
                 (array_push l
                    (map (fun fileName =>
                            CssUrlString (webpack_public_path wp
                                          +:+ webpack_cssAssetFileName wp fileName))
                         (webpack_cssAssets wp)))
                 b)
    | Prim _ | OtherObject false => Threw TypeError
    | OtherObject true => Foreign
    end
  else built b.

(** The adapter as the typed functions see it, when [allCssUrls] is an
    array. *)
Definition typed (a : Closures) (l : loc) : Adapter :=
  {| opts :=
       {| cssUrls := l;
          webpackExtractedCss := r_webpackExtractedCss (cl_opts a);
          timeout := r_timeout (cl_opts a);
          shouldUnmount := r_shouldUnmount (cl_opts a);
          createLink := r_createLink (cl_opts a) |};
     allCssUrls := l |}.

(** A configuration that is well typed, seen as an untyped input. *)
Definition of_typed (c : Given.SingleSpaCssOpts) : Input :=
  IsObject
    {| own_cssUrls := Some (ArrayRef (Given.cssUrls c));
       own_webpackExtractedCss := Given.webpackExtractedCss c;
       own_timeout := Given.timeout c;
       own_shouldUnmount := Given.shouldUnmount c;
       own_createLink := Given.createLink c |}.

(** The inputs the two comments of the source rule out. *)
Definition malformed (input : Input) : Prop :=
  match input with
  | NotObject _ => True
  | IsObject o =>
      match own_cssUrls o with
      | Some (ArrayRef _) | None => False
      | Some _ => True
      end
  end.

End Untyped.

(** ** Sample data for the closed statements *)

Definition empty_document : Document :=
  {| doc_head := []; doc_body := []; doc_next := 0 |}.

(** A selector engine that takes no text for a selector.  The sample URLs
    are read by the model, so the engine of the sample browsers is never
    asked. *)
Definition refusing_engine : string -> Document -> QueryResult :=
  fun _ _ => SyntaxError.

(** A browser that holds the module's default array and, at location 1,
    the array [urls] of a caller. *)
Definition browser_with (urls : list CssUrl) (d : Document) : Browser :=
  {| arrays := {[ defaultOptions_cssUrls := []; 1%nat := urls ]};
     document := d; promises := []; listeners := []; microtasks := [];
     selector_engine := refusing_engine |}.

Definition only_cssUrls : Given.SingleSpaCssOpts :=
  Given.mk 1%nat None None None None.

Definition sample_webpack : Webpack :=
  {| webpack_cssAssets := ["main"];
     webpack_public_path := "/static/";
     webpack_cssAssetFileName := fun fileName => fileName +:+ ".css" |}.

(** A stylesheet link for [url] as a page could already contain it. *)
Definition stylesheet_link (id : nat) (url : string) : Element :=
  {| node_id := id; tagName := "link";
     attributes := [("rel", "stylesheet"); ("href", url)] |}.

(** The element [opts.createLink(url)] returns when the next free node
    identity is [id]. *)
Definition created (id : nat) (f : LinkFactory) (url : string) : Element :=
  {| node_id := id; tagName := markup_tag (built (f url));
     attributes := markup_attrs (built (f url)) |}.

(** The configuration [c] with its [timeout] property replaced. *)
Definition with_timeout (t : option Z) (c : Given.SingleSpaCssOpts) : Given.SingleSpaCssOpts :=
  {| Given.cssUrls := Given.cssUrls c;
     Given.webpackExtractedCss := Given.webpackExtractedCss c;
     Given.timeout := t;
     Given.shouldUnmount := Given.shouldUnmount c;
     Given.createLink := Given.createLink c |}.

(** The array [mount] and [bootstrap] iterate over. *)
Definition stylesheets (a : Adapter) (s : State) : list CssUrl :=
  default [] (arrays (browser s) !! allCssUrls a).


(** The first element of the document that the compound selector [sel]
    selects. *)
Definition query (sel : Selector) (s : State) : option Element :=
  List.find (matches sel) (doc_elements (document (browser s))).

(** What the call of [querySelector] in [mount] gives for [url] in the
    state [s], and the one in [bootstrap]. *)
Definition stylesheet_query (url : string) (s : State) : QueryResult :=
  select stylesheet_template url (browser s).

Definition preload_query (url : string) (s : State) : QueryResult :=
  select preload_template url (browser s).

(** The array of the end-to-end example: ["a.css"] as a bare string, and
    ["b.css"] as a record that opts out of unmounting. *)
Definition sample_urls : list CssUrl :=
  [CssUrlString "a.css"; CssUrlObject "b.css" (Some (FlagBool false))].

(** A page that already holds a stylesheet link for ["a.css"], outside
    [head]. *)
Definition page_with_a_css : Document :=
  {| doc_head := []; doc_body := [stylesheet_link 0 "a.css"]; doc_next := 1 |}.

Definition sample_adapter : Adapter :=
  fst (singleSpaCss sample_webpack only_cssUrls (browser_with sample_urls empty_document)).

(** The state of a new adapter over [sample_urls] in the document [d]. *)
Definition sample_state (d : Document) : State :=
  snd (singleSpaCss sample_webpack only_cssUrls (browser_with sample_urls d)).

(** An array whose one reference has a [shouldUnmount] property that holds
    [undefined]. *)
Definition undefined_flag_urls : list CssUrl :=
  [CssUrlObject "c.css" (Some FlagUndefined)].

(** A URL with a backslash in it: seven characters, the second of which is
    the backslash.  In the selector text the backslash and the [b] after
    it are the escape of the character with the code 11. *)
Definition backslash_url : string := "a\b.css".

(** A page that holds a stylesheet link whose [href] is [backslash_url]. *)
Definition page_with_backslash_link : Document :=
  {| doc_head := [stylesheet_link 0 backslash_url]; doc_body := []; doc_next := 1 |}.

(** A URL with a double quote in it. *)
Definition quoted_url : string := "b" +:+ double_quote +:+ "c.css".

(** The state of a new adapter with the default options over the array
    [urls] in the document [d]. *)
Definition state_over (urls : list CssUrl) (d : Document) : State :=
  snd (singleSpaCss sample_webpack only_cssUrls (browser_with urls d)).

(** ** Predicates of the statements *)

(** The queue entry [entry] is an element that [opts.createLink] built, on a
    node created when the next free identity was between [lo] and [hi], for
    a reference of [urls] whose flag is truthy. *)
Definition created_by (a : Adapter) (urls : list CssUrl) (lo hi : nat)
    (entry : Element * string) : Prop :=
  exists (cssUrl : CssUrl) (n : nat),
    In cssUrl urls /\
    fst (extractUrl (opts a) cssUrl) = snd entry /\
    truthy (snd (extractUrl (opts a) cssUrl)) = true /\
    lo <= n < hi /\
    fst entry = created n (createLink (opts a)) (snd entry).

(** From [s] to [s'] the arrays are the same, nodes were only created, and
    whatever is new in the pending-unmount queue was created by the
    adapter for a reference of [urls] with a truthy flag. *)
Definition queue_provenance (a : Adapter) (urls : list CssUrl) (s s' : State) : Prop :=
  arrays (browser s') = arrays (browser s) /\
  doc_next (document (browser s)) <= doc_next (document (browser s')) /\
  forall entry, In entry (linkElementsToUnmount s') ->
    In entry (linkElementsToUnmount s) \/
    created_by a urls (doc_next (document (browser s))) (doc_next (document (browser s')))
      entry.

(** The listeners and the queued jobs refer to promises of the table. *)
Definition wf_state (s : State) : Prop :=
  Forall (fun l => lis_resolves l < length (promises (browser s))) (listeners (browser s)) /\
  Forall (fun j => job_promise j < length (promises (browser s))) (microtasks (browser s)).

(** What holds of the promise table [ps], the listeners [ls] and the queued
    jobs [ms] throughout: they are well formed and, when a promise [p] is
    watched together with a node [n], [p] is pending, a listener that
    resolves [p] is a [load] listener on [n], and no queued job resolves
    [p]. *)
Definition promise_invariant (watch : option (nat * nat))
    (ps : list PromiseState) (ls : list Listener) (ms : list Job) : Prop :=
  Forall (fun l => lis_resolves l < length ps) ls /\
  Forall (fun j => job_promise j < length ps) ms /\
  match watch with
  | None => True
  | Some (p, n) =>
      ps !! p = Some Pending /\
      Forall (fun l => lis_resolves l = p -> lis_target l = n /\ lis_type l = LoadEvent) ls /\
      Forall (fun j => job_promise j <> p) ms
  end.

Definition state_invariant (watch : option (nat * nat)) (s : State) : Prop :=
  promise_invariant watch
    (promises (browser s)) (listeners (browser s)) (microtasks (browser s)).

(** The watched node is not sent a [load] event by [act]. *)
Definition spares (watch : option (nat * nat)) (act : Action) : Prop :=
  match watch, act with
  | Some (_, n), Dispatch LoadEvent node => node <> n
  | _, _ => True
  end.


(** ** Further predicates and sample data *)

(** The element [bootstrap] builds on the node [id]: a [link] with [rel],
    [as] and [href] set in that order. *)
Definition preload_hint (id : nat) (url : string) : Element :=
  set_attr "href" url
    (set_attr "as" "style"
       (set_attr "rel" "preload" {| node_id := id; tagName := "link"; attributes := [] |})).

(** Every node of the tree was created before [doc_next]. *)
Definition doc_wf (d : Document) : Prop :=
  Forall (fun e => node_id e < doc_next d) (doc_elements d).


(** A [load] event at each of the nodes [lo], ..., [hi - 1]. *)
Definition load_events (lo hi : nat) : list Action :=
  map (Dispatch LoadEvent) (seq lo (hi - lo)).

(** A factory that adds a cache-busting query to the URL. *)
Definition versioned_link : LinkFactory :=
  fun url =>
    Builds
      {| markup_tag := "link";
         markup_attrs := [("href", url +:+ "?v=2"); ("rel", "stylesheet")] |}.


(** An array all of whose references are to be unmounted; ["a.css"] is
    listed twice. *)
Definition flagged_urls : list CssUrl :=
  [CssUrlString "a.css"; CssUrlObject "b.css" (Some (FlagBool true)); CssUrlString "a.css"].

(** The state of a new adapter over [flagged_urls] in the document [d]. *)
Definition flagged_state (d : Document) : State :=
  snd (singleSpaCss sample_webpack only_cssUrls (browser_with flagged_urls d)).

(** A state whose queue holds an element that other code has already taken
    out of the document. *)
Definition state_with_detached_element : State :=
  {| browser := browser_with sample_urls page_with_a_css;
     linkElements := {[ "c.css" := stylesheet_link 7 "c.css" ]};
     linkElementsToUnmount := [(stylesheet_link 7 "c.css", "c.css")] |}.

(** A page whose stylesheet link for ["a.css"] spells [rel] in capitals. *)
Definition page_with_capital_rel : Document :=
  {| doc_head := [];
     doc_body := [{| node_id := 0; tagName := "link";
                     attributes := [("rel", "STYLESHEET"); ("href", "a.css")] |}];
     doc_next := 1 |}.

(** A URL that closes the string and the bracket of the selector text and
    goes on with a selector of its own: the text becomes the selector list
    [link[rel="stylesheet"][href="x"],link[rel="preload"]]. *)
Definition crafted_url : string :=
  "x" +:+ double_quote +:+ "],link[rel=" +:+ double_quote +:+ "preload".

(** A selector engine that reads that list as a browser does: it selects
    the first [link] that is a stylesheet link of ["x"] or has [rel]
    [preload].  Every other text it refuses. *)
Definition list_engine : string -> Document -> QueryResult :=
  fun text d =>
    if String.eqb text (stylesheet_selector_text crafted_url)
    then Selected
           (List.find
              (fun e => matches (stylesheet_selector "x") e
                        || matches {| sel_tag := "link"; sel_attrs := [("rel", "preload")] |} e)
              (doc_elements d))
    else SyntaxError.



(** * Properties *)

(** ** The selector text *)

(** A URL without double quote, backslash, newline and NUL is read as
    itself. *)
Lemma ordinary_url_is_plain (url : string) : all_ordinary url = true -> plain url.
Proof.
  unfold plain, read_interpolated.
  induction url as [| c rest IH]; [reflexivity |].
  cbn [all_ordinary scan]. intros H. apply andb_true_iff in H. destruct H as [Hc Hrest].
  unfold ordinary in Hc. apply negb_true_iff in Hc.
  apply orb_false_iff in Hc. destruct Hc as [Hc H0].
  apply orb_false_iff in Hc. destruct Hc as [Hc Hnl].
  apply orb_false_iff in Hc. destruct Hc as [Hq Hb].
  rewrite Hq, Hb, Hnl, H0, (IH Hrest). reflexivity.
Qed.

Lemma plain_readable (url : string) : plain url -> readable url.
Proof. intros H. exists url. exact H. Qed.


Lemma preload_query_plain (url : string) (s : State) :
  plain url -> preload_query url s = Selected (query (preload_selector url) s).
Proof. intros H. unfold preload_query, select. rewrite H. reflexivity. Qed.

(** [querySelector] looks at the document and at nothing else of the
    state. *)
Lemma select_document (t : Template) (url : string) (b b' : Browser) :
  document b' = document b -> selector_engine b' = selector_engine b ->
  select t url b' = select t url b.
Proof. intros Hd He. unfold select. rewrite Hd, He. reflexivity. Qed.

(** The backslash of [backslash_url] is read as an escape, and the double
    quote of [quoted_url] ends the string too early. *)
Example reading_the_sample_urls :
  plain "a.css" /\
  read_interpolated backslash_url
  = Asks (String "a" (String (ascii_of_nat 11) ".css")) /\
  read_interpolated quoted_url = Invalid /\
  read_interpolated crafted_url = Unread.
Proof. repeat split. Qed.

(** ** The URL extractor and the defaults *)

(** C6: the extractor gives a bare string back with the configuration-level
    flag; for a record it gives the [href] with the record's own
    [shouldUnmount] when that property is present, and with the
    configuration-level flag when it is not. *)
Theorem extractUrl_shapes (o : Opts) :
  (forall url, extractUrl o (CssUrlString url) = (url, shouldUnmount o)) /\
  (forall href v, extractUrl o (CssUrlObject href (Some v)) = (href, v)) /\
  (forall href, extractUrl o (CssUrlObject href None) = (href, shouldUnmount o)).
Proof. repeat split. Qed.

(** C8: a configuration that gives only [cssUrls] is resolved to that array
    with [webpackExtractedCss] false, [timeout] 5000, [shouldUnmount] true
    and a factory whose element is a [link] with exactly the attributes
    [href], the URL asked for, and [rel], ["stylesheet"]. *)
Theorem only_required_fields_get_defaults (wp : Webpack) (l : loc) (b : Browser) :
  let a := fst (singleSpaCss wp (Given.mk l None None None None) b) in
  cssUrls (opts a) = l /\
  webpackExtractedCss (opts a) = false /\
  timeout (opts a) = 5000%Z /\
  shouldUnmount (opts a) = FlagBool true /\
  forall (url : string) (s : State),
    let linkEl := fst (call_createLink (createLink (opts a)) url s) in
    tagName linkEl = "link" /\
    attributes linkEl = [("href", url); ("rel", "stylesheet")] /\
    getAttribute "rel" (attributes linkEl) = Some "stylesheet" /\
    getAttribute "href" (attributes linkEl) = Some url /\
    matches (stylesheet_selector url) linkEl = true.
Proof.
  cbn. repeat split.
  unfold matches, attribute_test, attribute_value_eqb. cbn.
  rewrite String.eqb_refl. reflexivity.
Qed.

(** ** What one executor does *)

Lemma new_Promise_eq (executor : nat -> M Completion) (s : State) :
  new_Promise executor s =
  (length (promises (browser s)),
   let r := executor (length (promises (browser s)))
              (with_browser (with_promises (fun ps => ps ++ [Pending])) s) in
   match fst r with
   | Normal => snd r
   | Abrupt => with_browser (with_promises (reject (length (promises (browser s))))) (snd r)
   end).
Proof.
  unfold new_Promise, bind, ret, modify.
  destruct (executor _ _) as [[] s']; reflexivity.
Qed.

Lemma reject_new (ps : list PromiseState) :
  reject (length ps) (ps ++ [Pending]) = ps ++ [Rejected].
Proof.
  unfold reject.
  assert (Hlook : (ps ++ [Pending]) !! length ps = Some Pending).
  { rewrite lookup_app_r by lia. rewrite Nat.sub_diag. reflexivity. }
  rewrite Hlook, insert_app_r_alt by lia. rewrite Nat.sub_diag. reflexivity.
Qed.

(** The three ways an executor of [mount] goes: the branch
    [if (existingLinkEl)]; the branch [else], in which the element is
    created, listened to, recorded, inserted, and queued when the flag is
    truthy; and a throw, of [querySelector] or of the factory, before
    anything is changed. *)
Lemma mount_executor_cases (a : Adapter) (c : CssUrl) (p : nat) (s : State) :
  let url := fst (extractUrl (opts a) c) in
  let flag := snd (extractUrl (opts a) c) in
  let d := document (browser s) in
  let linkEl := created (doc_next d) (createLink (opts a)) url in
  (exists el,
     stylesheet_query url s = Selected (Some el) /\
     mount_executor a c p s
     = (Normal,
        {| browser := with_promises (settle p) (browser s);
           linkElements := assign_property url el (linkElements s);
           linkElementsToUnmount := linkElementsToUnmount s |})) \/
  (stylesheet_query url s = Selected None /\
   createLink (opts a) url <> Throws /\
   mount_executor a c p s
   = (Normal,
      {| browser :=
           {| arrays := arrays (browser s);
              document := {| doc_head := doc_head d ++ [linkEl];
                             doc_body := doc_body d;
                             doc_next := S (doc_next d) |};
              promises := promises (browser s);
              listeners := listeners (browser s)
                           ++ [{| lis_target := doc_next d; lis_type := LoadEvent;
                                  lis_resolves := p |}];
              microtasks := microtasks (browser s);
              selector_engine := selector_engine (browser s) |};
         linkElements := assign_property url linkEl (linkElements s);
         linkElementsToUnmount :=
           if truthy flag then linkElementsToUnmount s ++ [(linkEl, url)]
           else linkElementsToUnmount s |})) \/
  ((stylesheet_query url s = SyntaxError \/
    (stylesheet_query url s = Selected None /\ createLink (opts a) url = Throws)) /\
   mount_executor a c p s = (Abrupt, s)).
Proof.
  intros url flag d linkEl. subst url flag d linkEl.
  unfold mount_executor, stylesheet_query, querySelector, call_createLink, created, bind, gets.
  destruct (extractUrl (opts a) c) as [url flag]. cbn [fst snd].
  destruct (select stylesheet_template url (browser s)) as [[el |] |].
  - left. exists el. split; reflexivity.
  - destruct (createLink (opts a) url) as [m |] eqn:Hf.
    + right. left. split; [reflexivity | split; [discriminate |]].
      cbn. destruct (truthy flag); reflexivity.
    + right. right. split; [right; split; reflexivity | reflexivity].
  - right. right. split; [left; reflexivity | reflexivity].
Qed.

(** The same with the allocation of the promise, and its rejection when
    the executor throws. *)
Lemma mount_step_cases (a : Adapter) (c : CssUrl) (s : State) :
  let url := fst (extractUrl (opts a) c) in
  let flag := snd (extractUrl (opts a) c) in
  let d := document (browser s) in
  let p := length (promises (browser s)) in
  let linkEl := created (doc_next d) (createLink (opts a)) url in
  (exists el,
     stylesheet_query url s = Selected (Some el) /\
     snd (new_Promise (mount_executor a c) s)
     = {| browser :=
            {| arrays := arrays (browser s);
               document := d;
               promises := settle p (promises (browser s) ++ [Pending]);
               listeners := listeners (browser s);
               microtasks := microtasks (browser s);
               selector_engine := selector_engine (browser s) |};
          linkElements := assign_property url el (linkElements s);
          linkElementsToUnmount := linkElementsToUnmount s |}) \/
  (stylesheet_query url s = Selected None /\
   createLink (opts a) url <> Throws /\
   snd (new_Promise (mount_executor a c) s)
   = {| browser :=
          {| arrays := arrays (browser s);
             document := {| doc_head := doc_head d ++ [linkEl];
                            doc_body := doc_body d;
                            doc_next := S (doc_next d) |};
             promises := promises (browser s) ++ [Pending];
             listeners := listeners (browser s)
                          ++ [{| lis_target := doc_next d; lis_type := LoadEvent;
                                 lis_resolves := p |}];
             microtasks := microtasks (browser s);
             selector_engine := selector_engine (browser s) |};
        linkElements := assign_property url linkEl (linkElements s);
        linkElementsToUnmount :=
          if truthy flag then linkElementsToUnmount s ++ [(linkEl, url)]
          else linkElementsToUnmount s |}) \/
  ((stylesheet_query url s = SyntaxError \/
    (stylesheet_query url s = Selected None /\ createLink (opts a) url = Throws)) /\
   snd (new_Promise (mount_executor a c) s)
   = {| browser :=
          {| arrays := arrays (browser s);
             document := d;
             promises := promises (browser s) ++ [Rejected];
             listeners := listeners (browser s);
             microtasks := microtasks (browser s);
             selector_engine := selector_engine (browser s) |};
        linkElements := linkElements s;
        linkElementsToUnmount := linkElementsToUnmount s |}).
Proof.
  intros url flag d p linkEl. rewrite new_Promise_eq. cbv zeta. cbn [snd].
  set (s1 := with_browser (with_promises (fun ps => ps ++ [Pending])) s).
  assert (Hsame : stylesheet_query url s1 = stylesheet_query url s) by reflexivity.
  destruct (mount_executor_cases a c (length (promises (browser s))) s1)
    as [(el & Hq & ->) | [(Hq & Hf & ->) | (Hq & ->)]]; cbn [fst snd].
  - left. exists el. split; [rewrite <- Hsame; exact Hq | reflexivity].
  - right. left. split; [rewrite <- Hsame; exact Hq | split; [exact Hf | reflexivity]].
  - right. right. split; [exact Hq |].
    rewrite <- reject_new. reflexivity.
Qed.

Lemma mount_step_allocates (a : Adapter) (c : CssUrl) (s : State) :
  fst (new_Promise (mount_executor a c) s) = length (promises (browser s)) /\
  length (promises (browser (snd (new_Promise (mount_executor a c) s))))
  = S (length (promises (browser s))).
Proof.
  split; [rewrite new_Promise_eq; reflexivity |].
  assert (Hsettle : forall q ps, length (settle q ps) = length ps).
  { intros q ps. unfold settle. destruct (ps !! q) as [[| |] |]; try reflexivity.
    apply length_insert. }
  destruct (mount_step_cases a c s) as [(el & _ & ->) | [(_ & _ & ->) | (_ & ->)]]; cbn;
    rewrite ?Hsettle, length_app; cbn; lia.
Qed.

(** The three ways an executor of [bootstrap] goes: the hint is found; it
    is not, and one is built and appended to [head]; [querySelector]
    throws. *)
Lemma bootstrap_step_cases (a : Adapter) (c : CssUrl) (s : State) :
  let url := fst (extractUrl (opts a) c) in
  let d := document (browser s) in
  let s_found :=
    with_browser (with_promises (fun ps => settle (length ps) (ps ++ [Pending]))) s in
  (exists el,
     preload_query url s = Selected (Some el) /\
     snd (new_Promise (bootstrap_executor a c) s) = s_found) \/
  (preload_query url s = Selected None /\
   snd (new_Promise (bootstrap_executor a c) s)
   = with_browser (with_document (fun _ =>
       {| doc_head := doc_head d ++ [preload_hint (doc_next d) url];
          doc_body := doc_body d;
          doc_next := S (doc_next d) |})) s_found) \/
  (preload_query url s = SyntaxError /\
   snd (new_Promise (bootstrap_executor a c) s)
   = with_browser (with_promises (fun ps => ps ++ [Rejected])) s).
Proof.
  intros url d s_found. subst url d s_found. rewrite new_Promise_eq.
  unfold bootstrap_executor, preload_query, querySelector, bind, gets.
  destruct (extractUrl (opts a) c) as [url flag]. cbn [fst snd].
  change (select preload_template url
            (browser (with_browser (with_promises (fun ps => ps ++ [Pending])) s)))
    with (select preload_template url (browser s)).
  destruct (select preload_template url (browser s)) as [[el |] |].
  - left. exists el. split; reflexivity.
  - right. left. split; reflexivity.
  - right. right. split; [reflexivity |].
    destruct s as [[ar d ps ls ms se] reg q]. unfold with_browser, with_promises.
    cbn [browser promises arrays document listeners microtasks selector_engine
         linkElements linkElementsToUnmount fst snd].
    rewrite reject_new. reflexivity.
Qed.

Lemma bootstrap_step_allocates (a : Adapter) (c : CssUrl) (s : State) :
  fst (new_Promise (bootstrap_executor a c) s) = length (promises (browser s)).
Proof. rewrite new_Promise_eq. reflexivity. Qed.

Lemma bootstrap_unfold (a : Adapter) (s : State) :
  bootstrap a s = mapM (fun c => new_Promise (bootstrap_executor a c)) (stylesheets a s) s.
Proof. reflexivity. Qed.

Lemma mount_unfold (a : Adapter) (s : State) :
  mount a s = mapM (fun c => new_Promise (mount_executor a c)) (stylesheets a s) s.
Proof. reflexivity. Qed.

(** What an assignment to the registry leaves under a key. *)
Lemma lookup_assign_ne (key k : string) (e : Element) (m : gmap string Element) :
  key <> k -> assign_property key e m !! k = m !! k.
Proof.
  intros Hne. unfold assign_property. destruct (String.eqb key "__proto__"); [reflexivity |].
  apply lookup_insert_ne. exact Hne.
Qed.


(** ** Construction *)

Lemma singleSpaCss_arrays (wp : Webpack) (c : Given.SingleSpaCssOpts) (b : Browser) :
  arrays (browser (snd (singleSpaCss wp c b))) =
  if default false (Given.webpackExtractedCss c) then
    array_push (Given.cssUrls c)
      (map (fun fileName =>
              CssUrlString (webpack_public_path wp +:+ webpack_cssAssetFileName wp fileName))
           (webpack_cssAssets wp))
      (arrays b)
  else arrays b.
Proof.
  unfold singleSpaCss. cbn.
  destruct (Given.webpackExtractedCss c) as [[|] |]; reflexivity.
Qed.

(** C5 (not met by the code): with [webpackExtractedCss] on, construction
    pushes the webpack asset URLs into the very array the caller passed as
    [cssUrls].  The caller's array [["a.css"]] at location 1 holds two
    entries once the adapter is built. *)
Theorem construction_appends_to_the_callers_array :
  let b := browser_with [CssUrlString "a.css"] empty_document in
  let c := Given.mk 1%nat (Some true) None None None in
  arrays b !! Given.cssUrls c = Some [CssUrlString "a.css"] /\
  arrays (browser (snd (singleSpaCss sample_webpack c b))) !! Given.cssUrls c
  = Some [CssUrlString "a.css"; CssUrlString "/static/main.css"].
Proof. split; vm_compute; reflexivity. Qed.

(** The same [push] reaches the array of [defaultOptions] when the caller
    gives no [cssUrls]: that array belongs to the module, so the adapter
    built next starts from the URLs the first one pushed, and pushes them
    again. *)
Example default_array_accumulates :
  let toggle_only :=
    Untyped.IsObject (Untyped.mkObject None (Some true) None None None) in
  let b0 := browser_with [] empty_document in
  match Untyped.singleSpaCss sample_webpack toggle_only b0 with
  | Untyped.Returned (_, s1) =>
      arrays (browser s1) !! defaultOptions_cssUrls = Some [CssUrlString "/static/main.css"] /\
      match Untyped.singleSpaCss sample_webpack toggle_only (browser s1) with
      | Untyped.Returned (_, s2) =>
          arrays (browser s2) !! defaultOptions_cssUrls
          = Some [CssUrlString "/static/main.css"; CssUrlString "/static/main.css"]
      | _ => False
      end
  | _ => False
  end.
Proof. vm_compute. split; reflexivity. Qed.

(** On a well-typed configuration the untyped constructor is the typed one. *)
Lemma untyped_singleSpaCss_of_typed (wp : Webpack) (c : Given.SingleSpaCssOpts) (b : Browser) :
  exists a,
    Untyped.singleSpaCss wp (Untyped.of_typed c) b
    = Untyped.Returned (a, snd (singleSpaCss wp c b)) /\
    Untyped.typed a (Given.cssUrls c) = fst (singleSpaCss wp c b).
Proof.
  unfold Untyped.singleSpaCss, singleSpaCss. cbn.
  destruct (Given.webpackExtractedCss c) as [[|] |]; cbn;
    eexists; split; reflexivity.
Qed.

(** C7 (as stated, refuted): [null] is not an object, yet the constructor
    returns an adapter for it; and a configuration whose [cssUrls] is a
    string is accepted as well. *)
Lemma malformed_configuration_is_accepted :
  let b := browser_with [] empty_document in
  let not_a_sequence :=
    Untyped.IsObject
      (Untyped.mkObject (Some (Untyped.Prim (Untyped.Str "a.css"))) None None None None) in
  (Untyped.malformed (Untyped.NotObject Untyped.Null) /\
   Untyped.singleSpaCss sample_webpack (Untyped.NotObject Untyped.Null) b
   <> Untyped.Threw Untyped.ValidationError /\
   exists r, Untyped.singleSpaCss sample_webpack (Untyped.NotObject Untyped.Null) b
             = Untyped.Returned r) /\
  (Untyped.malformed not_a_sequence /\
   exists r, Untyped.singleSpaCss sample_webpack not_a_sequence b = Untyped.Returned r).
Proof.
  cbn. repeat split; try discriminate; eexists; reflexivity.
Qed.

(** C7, amended: the constructor validates nothing.  On a malformed
    configuration it raises no validation error.  An input that is not an
    object yields the adapter of the default options.  A [cssUrls] that is
    not an array is taken as it is: with [webpackExtractedCss] off the
    constructor returns an adapter that keeps that value as its list.  In
    both cases the browser is left as it was. *)
Theorem malformed_configuration_is_not_validated
    (wp : Webpack) (input : Untyped.Input) (b : Browser) :
  Untyped.malformed input ->
  Untyped.singleSpaCss wp input b <> Untyped.Threw Untyped.ValidationError /\
  (forall p, input = Untyped.NotObject p ->
     exists a,
       Untyped.singleSpaCss wp input b
       = Untyped.Returned
           (a, {| browser := b; linkElements := ∅; linkElementsToUnmount := [] |}) /\
       Untyped.cl_allCssUrls a = Untyped.ArrayRef defaultOptions_cssUrls /\
       Untyped.typed a defaultOptions_cssUrls
       = {| opts := defaultOptions; allCssUrls := defaultOptions_cssUrls |}) /\
  (Untyped.r_webpackExtractedCss (Untyped.Object_assign defaultOptions input) = false ->
   exists a,
     Untyped.singleSpaCss wp input b
     = Untyped.Returned
         (a, {| browser := b; linkElements := ∅; linkElementsToUnmount := [] |}) /\
     Untyped.cl_allCssUrls a = Untyped.r_cssUrls (Untyped.Object_assign defaultOptions input)).
Proof.
  intros _. split; [| split].
  - unfold Untyped.singleSpaCss.
    destruct (Untyped.r_webpackExtractedCss _); [| discriminate].
    destruct (Untyped.r_cssUrls _) as [l | p | []]; discriminate.
  - intros p ->. eexists. cbn. repeat split.
  - intros Hoff. unfold Untyped.singleSpaCss. rewrite Hoff.
    eexists. split; reflexivity.
Qed.

(** The theorem at [null]: an adapter over the default options comes back
    and the browser is the one that was given. *)
Lemma malformed_configuration_is_not_validated_witness :
  let b := browser_with [] empty_document in
  Untyped.malformed (Untyped.NotObject Untyped.Null) /\
  exists a,
    Untyped.singleSpaCss sample_webpack (Untyped.NotObject Untyped.Null) b
    = Untyped.Returned
        (a, {| browser := b; linkElements := ∅; linkElementsToUnmount := [] |}) /\
    Untyped.cl_allCssUrls a = Untyped.ArrayRef defaultOptions_cssUrls /\
    Untyped.typed a defaultOptions_cssUrls
    = {| opts := defaultOptions; allCssUrls := defaultOptions_cssUrls |}.
Proof.
  split; [exact I |].
  exact (proj1 (proj2 (malformed_configuration_is_not_validated sample_webpack
                         (Untyped.NotObject Untyped.Null) (browser_with [] empty_document) I))
           Untyped.Null eq_refl).
Defined.

(** A [cssUrls] that is an object with a [push] method of its own: with
    [webpackExtractedCss] on, the constructor calls that method. *)
Example foreign_push_is_called :
  Untyped.singleSpaCss sample_webpack
    (Untyped.IsObject
       (Untyped.mkObject (Some (Untyped.OtherObject true)) (Some true) None None None))
    (browser_with [] empty_document)
  = Untyped.Foreign.
Proof. reflexivity. Qed.

(** ** The timeout *)

Lemma mapM_ext {A B} (f g : A -> M B) (l : list A) :
  (forall x s, f x s = g x s) -> forall s, mapM f l s = mapM g l s.
Proof.
  intros Hfg. induction l as [| x rest IH]; intros s; [reflexivity |].
  cbn. unfold bind. rewrite Hfg. destruct (g x s) as [y s1].
  rewrite IH. reflexivity.
Qed.

(** The lifecycle functions read [shouldUnmount], [createLink] and the
    array reference, and nothing else of the adapter. *)
Lemma lifecycles_read (a1 a2 : Adapter) :
  shouldUnmount (opts a1) = shouldUnmount (opts a2) ->
  createLink (opts a1) = createLink (opts a2) ->
  allCssUrls a1 = allCssUrls a2 ->
  forall s, bootstrap a1 s = bootstrap a2 s /\
            mount a1 s = mount a2 s /\
            unmount a1 s = unmount a2 s.
Proof.
  intros Hflag Hlink Harr s.
  assert (Hx : forall c, extractUrl (opts a1) c = extractUrl (opts a2) c).
  { intros [url | href own]; cbn; rewrite Hflag; reflexivity. }
  repeat split.
  - unfold bootstrap, bind, read_array, gets. rewrite Harr.
    apply mapM_ext. intros c s1. rewrite !new_Promise_eq.
    unfold bootstrap_executor. rewrite Hx. reflexivity.
  - unfold mount, bind, read_array, gets. rewrite Harr.
    apply mapM_ext. intros c s1. rewrite !new_Promise_eq.
    unfold mount_executor. rewrite Hx, Hlink. reflexivity.
Qed.

Lemma run_read (a1 a2 : Adapter) :
  (forall s, bootstrap a1 s = bootstrap a2 s /\
             mount a1 s = mount a2 s /\
             unmount a1 s = unmount a2 s) ->
  forall trace s, run a1 trace s = run a2 trace s.
Proof.
  intros Hsame trace. induction trace as [| act rest IH]; intros s; [reflexivity |].
  cbn. unfold bind.
  assert (Hstep : step a1 act s = step a2 act s).
  { destruct (Hsame s) as (Hb & Hm & Hu).
    destruct act; cbn [step]; unfold bind; rewrite ?Hb, ?Hm, ?Hu; reflexivity. }
  rewrite Hstep. destruct (step a2 act s) as [[] s1]. apply IH.
Qed.

(** C9: two configurations that differ at most in [timeout] give adapters
    that start from the same state and whose [bootstrap], [mount] and
    [unmount] return the same promises and the same state (document,
    registry, queue, promise table) from every state; so does every
    sequence of lifecycle calls, microtasks and events. *)
Theorem timeout_is_never_consulted
    (wp : Webpack) (c : Given.SingleSpaCssOpts) (t1 t2 : option Z) (b : Browser) :
  let r1 := singleSpaCss wp (with_timeout t1 c) b in
  let r2 := singleSpaCss wp (with_timeout t2 c) b in
  snd r1 = snd r2 /\
  (forall s, bootstrap (fst r1) s = bootstrap (fst r2) s /\
             mount (fst r1) s = mount (fst r2) s /\
             unmount (fst r1) s = unmount (fst r2) s) /\
  (forall trace s, run (fst r1) trace s = run (fst r2) trace s).
Proof.
  cbn zeta.
  assert (Hsame : forall s,
    bootstrap (fst (singleSpaCss wp (with_timeout t1 c) b)) s
    = bootstrap (fst (singleSpaCss wp (with_timeout t2 c) b)) s /\
    mount (fst (singleSpaCss wp (with_timeout t1 c) b)) s
    = mount (fst (singleSpaCss wp (with_timeout t2 c) b)) s /\
    unmount (fst (singleSpaCss wp (with_timeout t1 c) b)) s
    = unmount (fst (singleSpaCss wp (with_timeout t2 c) b)) s).
  { apply lifecycles_read; reflexivity. }
  split; [reflexivity | split; [exact Hsame | apply run_read; exact Hsame]].
Qed.

(** ** Unmount *)

Lemma existsb_false_iff {A} (p : A -> bool) (l : list A) :
  existsb p l = false <-> forall x, In x l -> p x = false.
Proof.
  induction l as [| y rest IH]; cbn.
  - split; [intros _ x [] | reflexivity].
  - rewrite orb_false_iff, IH. split.
    + intros [Hy Hrest] x [<- | Hx]; auto.
    + intros H. split; [apply H; left; reflexivity | intros x Hx; apply H; right; exact Hx].
Qed.

(** The nodes that stay after [removeChild]. *)
Lemma detached_after_filter (e e' : Element) (hd bd : list Element) :
  existsb (same_node e) (hd ++ bd) = false ->
  existsb (same_node e)
    (List.filter (fun x => negb (same_node e' x)) hd
     ++ List.filter (fun x => negb (same_node e' x)) bd) = false.
Proof.
  rewrite !existsb_false_iff. intros H x Hx. apply H.
  rewrite in_app_iff in *. rewrite !filter_In in Hx. tauto.
Qed.

Lemma detached_by_filter (e : Element) (hd bd : list Element) :
  existsb (same_node e)
    (List.filter (fun x => negb (same_node e x)) hd
     ++ List.filter (fun x => negb (same_node e x)) bd) = false.
Proof.
  rewrite existsb_false_iff. intros x Hx.
  rewrite in_app_iff, !filter_In in Hx.
  destruct (same_node e x); [cbn in Hx; intuition discriminate | reflexivity].
Qed.

(** The calls of [then] in [unmount]: one pending promise and one job for
    each entry, in order; nothing else changes. *)
Lemma mapM_then (q : list (Element * string)) :
  forall ar d ps ls ms se reg q0,
  exists new : list Job,
    mapM (fun entry => Promise_resolve_then (fst entry) (snd entry)) q
      (mkState (mkBrowser ar d ps ls ms se) reg q0)
    = (map job_promise new,
       mkState (mkBrowser ar d (ps ++ replicate (length q) Pending) ls (ms ++ new) se) reg q0) /\
    map (fun j => (job_linkEl j, job_url j)) new = q /\
    map job_promise new = seq (length ps) (length q).
Proof.
  induction q as [| [e u] rest IH]; intros ar d ps ls ms se reg q0.
  - exists []. cbn. rewrite !app_nil_r. auto.
  - destruct (IH ar d (ps ++ [Pending]) ls
                (ms ++ [{| job_linkEl := e; job_url := u; job_promise := length ps |}])
                se reg q0) as (new & Heq & Hpairs & Hids).
    exists ({| job_linkEl := e; job_url := u; job_promise := length ps |} :: new).
    assert (Hstep : Promise_resolve_then e u (mkState (mkBrowser ar d ps ls ms se) reg q0)
                    = (length ps,
                       mkState (mkBrowser ar d (ps ++ [Pending]) ls
                                  (ms ++ [{| job_linkEl := e; job_url := u;
                                             job_promise := length ps |}]) se) reg q0))
      by reflexivity.
    cbn [mapM fst snd]. unfold bind. rewrite Hstep, Heq. unfold ret.
    rewrite <- !app_assoc. cbn [map length job_linkEl job_url job_promise seq].
    rewrite Hpairs, Hids, length_app. cbn [length]. rewrite Nat.add_1_r.
    repeat split.
Qed.

Lemma run_job_eq (j : Job) ar d ps ls ms se reg q0 :
  run_job j (mkState (mkBrowser ar d ps ls ms se) reg q0)
  = (tt,
     mkState
       (mkBrowser ar
          (if existsb (same_node (job_linkEl j)) (doc_elements d)
           then {| doc_head := List.filter (fun x => negb (same_node (job_linkEl j) x)) (doc_head d);
                   doc_body := List.filter (fun x => negb (same_node (job_linkEl j) x)) (doc_body d);
                   doc_next := doc_next d |}
           else d)
          (settle (job_promise j) ps) ls ms se)
       (delete (job_url j) reg) q0).
Proof.
  unfold run_job, bind. cbn.
  destruct (existsb (same_node (job_linkEl j)) (doc_elements d)); reflexivity.
Qed.

Lemma filter_twice {A} (p q : A -> bool) (l : list A) :
  List.filter p (List.filter q l) = List.filter (fun x => q x && p x) l.
Proof.
  induction l as [| x rest IH]; [reflexivity |].
  cbn. destruct (q x); cbn; [destruct (p x) |]; rewrite IH; reflexivity.
Qed.

(** The list [l] once the nodes of the jobs [js] have been removed. *)
Lemma filter_jobs_step (j : Job) (js : list Job) (l : list Element) :
  List.filter (fun x => negb (existsb (fun k => same_node (job_linkEl k) x) js))
    (List.filter (fun x => negb (same_node (job_linkEl j) x)) l)
  = List.filter (fun x => negb (existsb (fun k => same_node (job_linkEl k) x) (j :: js))) l.
Proof.
  rewrite filter_twice. apply filter_ext. intros x. cbn.
  rewrite negb_orb. reflexivity.
Qed.

Lemma filter_jobs_skip (j : Job) (js : list Job) (l : list Element) :
  existsb (same_node (job_linkEl j)) l = false ->
  List.filter (fun x => negb (existsb (fun k => same_node (job_linkEl k) x) js)) l
  = List.filter (fun x => negb (existsb (fun k => same_node (job_linkEl k) x) (j :: js))) l.
Proof.
  rewrite existsb_false_iff. intros H. apply filter_ext_in. intros x Hx.
  cbn. rewrite (H x Hx). reflexivity.
Qed.

(** Running the queued jobs one after the other empties the microtask
    queue and takes out of the tree the nodes of the jobs and no other; the
    URL of every job is then out of the registry; the pending-unmount queue
    is not touched. *)
Lemma run_jobs (js : list Job) :
  forall ar d ps ls se reg q0,
  let s' := snd (mapM (fun _ : Job => run_microtask) js
                   (mkState (mkBrowser ar d ps ls js se) reg q0)) in
  microtasks (browser s') = [] /\
  linkElementsToUnmount s' = q0 /\
  document (browser s')
  = {| doc_head :=
         List.filter (fun x => negb (existsb (fun k => same_node (job_linkEl k) x) js))
           (doc_head d);
       doc_body :=
         List.filter (fun x => negb (existsb (fun k => same_node (job_linkEl k) x) js))
           (doc_body d);
       doc_next := doc_next d |} /\
  (forall e, existsb (same_node e) (doc_elements d) = false ->
             existsb (same_node e) (doc_elements (document (browser s'))) = false) /\
  (forall u, reg !! u = None -> linkElements s' !! u = None) /\
  (forall k, In k js ->
     existsb (same_node (job_linkEl k)) (doc_elements (document (browser s'))) = false /\
     linkElements s' !! job_url k = None).
Proof.
  induction js as [| j rest IH]; intros ar d ps ls se reg q0.
  - cbn. rewrite !filter_true. destruct d. repeat split; auto; contradiction.
  - cbn [mapM]. unfold bind.
    assert (Hstep : run_microtask (mkState (mkBrowser ar d ps ls (j :: rest) se) reg q0)
                    = run_job j (mkState (mkBrowser ar d ps ls rest se) reg q0)) by reflexivity.
    rewrite Hstep, run_job_eq.
    set (d1 := if existsb (same_node (job_linkEl j)) (doc_elements d) then _ else d).
    assert (Hkeep : forall e, existsb (same_node e) (doc_elements d) = false ->
                              existsb (same_node e) (doc_elements d1) = false).
    { intros e He. subst d1.
      destruct (existsb (same_node (job_linkEl j)) (doc_elements d)); [| exact He].
      apply detached_after_filter. exact He. }
    assert (Hgone : existsb (same_node (job_linkEl j)) (doc_elements d1) = false).
    { subst d1.
      destruct (existsb (same_node (job_linkEl j)) (doc_elements d)) eqn:Hatt; [| exact Hatt].
      apply detached_by_filter. }
    assert (Hfilter :
      {| doc_head :=
           List.filter (fun x => negb (existsb (fun k => same_node (job_linkEl k) x) rest))
             (doc_head d1);
         doc_body :=
           List.filter (fun x => negb (existsb (fun k => same_node (job_linkEl k) x) rest))
             (doc_body d1);
         doc_next := doc_next d1 |}
      = {| doc_head :=
             List.filter
               (fun x => negb (existsb (fun k => same_node (job_linkEl k) x) (j :: rest)))
               (doc_head d);
           doc_body :=
             List.filter
               (fun x => negb (existsb (fun k => same_node (job_linkEl k) x) (j :: rest)))
               (doc_body d);
           doc_next := doc_next d |}).
    { subst d1.
      destruct (existsb (same_node (job_linkEl j)) (doc_elements d)) eqn:Hatt.
      - cbn [doc_head doc_body doc_next]. rewrite !filter_jobs_step. reflexivity.
      - unfold doc_elements in Hatt. rewrite existsb_app, orb_false_iff in Hatt.
        destruct Hatt as [Hh Hb].
        rewrite (filter_jobs_skip j rest _ Hh), (filter_jobs_skip j rest _ Hb).
        reflexivity. }
    specialize (IH ar d1 (settle (job_promise j) ps) ls se (delete (job_url j) reg) q0).
    cbn zeta in IH. cbn zeta.
    destruct (mapM (fun _ : Job => run_microtask) rest _) as [ys s'].
    unfold ret. cbn [snd] in *. destruct IH as (Hq & Hu & Hd & Hdoc & Hreg & Hjobs).
    split; [exact Hq | split; [exact Hu | split; [| split; [| split]]]].
    + rewrite Hd. exact Hfilter.
    + intros e He. apply Hdoc, Hkeep, He.
    + intros u Hu'. apply Hreg. rewrite lookup_delete_None. right. exact Hu'.
    + intros k [<- | Hin]; [| apply Hjobs; exact Hin].
      split; [apply Hdoc; exact Hgone | apply Hreg, lookup_delete_eq].
Qed.

(** C2: from every state, two calls of [unmount] in immediate succession
    remove each queued element exactly once.  The first call empties the
    queue at once and, without touching the registry or the document,
    queues one removal job for each pair it found, in order.  The second
    call finds the queue empty: it returns no promise and leaves the state
    as it is.  When the microtasks have run, every element that was queued
    is out of the document and its URL out of the registry, and the
    document has lost the nodes of the queued jobs and no other node. *)
Theorem unmount_twice_removes_once (a : Adapter) (s : State) :
  let queued := linkElementsToUnmount s in
  let r1 := unmount a s in
  let r2 := unmount a (snd r1) in
  let s3 := snd (drain_microtasks (snd r2)) in
  let removed (x : Element) :=
    existsb (fun k => same_node (job_linkEl k) x) (microtasks (browser (snd r1))) in
  (linkElementsToUnmount (snd r1) = [] /\
   linkElements (snd r1) = linkElements s /\
   document (browser (snd r1)) = document (browser s) /\
   exists new : list Job,
     microtasks (browser (snd r1)) = microtasks (browser s) ++ new /\
     map (fun j => (job_linkEl j, job_url j)) new = queued /\
     map job_promise new = fst r1) /\
  (fst r2 = [] /\ snd r2 = snd r1) /\
  (microtasks (browser s3) = [] /\
   (forall el url, In (el, url) queued ->
      existsb (same_node el) (doc_elements (document (browser s3))) = false /\
      linkElements s3 !! url = None) /\
   document (browser s3)
   = {| doc_head := List.filter (fun x => negb (removed x)) (doc_head (document (browser s)));
        doc_body := List.filter (fun x => negb (removed x)) (doc_body (document (browser s)));
        doc_next := doc_next (document (browser s)) |}).
Proof.
  destruct s as [[ar d ps ls ms se] reg q].
  destruct (mapM_then q ar d ps ls ms se reg []) as (new & Heq & Hpairs & Hids).
  assert (H1 : unmount a (mkState (mkBrowser ar d ps ls ms se) reg q)
               = (map job_promise new,
                  mkState (mkBrowser ar d (ps ++ replicate (length q) Pending) ls (ms ++ new) se)
                    reg [])).
  { unfold unmount, bind, gets, modify. cbn. exact Heq. }
  cbn zeta. rewrite H1. cbn [fst snd].
  assert (H2 : unmount a (mkState (mkBrowser ar d (ps ++ replicate (length q) Pending) ls
                                     (ms ++ new) se) reg [])
               = ([], mkState (mkBrowser ar d (ps ++ replicate (length q) Pending) ls
                                 (ms ++ new) se) reg [])) by reflexivity.
  rewrite H2. cbn [fst snd browser linkElements linkElementsToUnmount document microtasks].
  split; [| split; [split; reflexivity |]].
  - repeat split. exists new. auto.
  - unfold drain_microtasks, bind, gets.
    cbn [browser microtasks].
    pose proof (run_jobs (ms ++ new) ar d (ps ++ replicate (length q) Pending) ls se reg [])
      as Hrun.
    cbn zeta in Hrun.
    destruct (mapM (fun _ : Job => run_microtask) (ms ++ new) _) as [ys s3].
    unfold ret. cbn [snd] in *.
    destruct Hrun as (Hq & _ & Hd & _ & _ & Hjobs).
    split; [exact Hq | split; [| exact Hd]].
    intros el url Hin.
    rewrite <- Hpairs in Hin. apply in_map_iff in Hin.
    destruct Hin as (j & Hj & Hin). injection Hj as <- <-.
    apply Hjobs. apply in_or_app. right. exact Hin.
Qed.
(** ** Lifting a property of one step to a whole [map] *)

Lemma mapM_preorder {A B} (f : A -> M B) (R : State -> State -> Prop) (l : list A) :
  (forall s, R s s) ->
  (forall s1 s2 s3, R s1 s2 -> R s2 s3 -> R s1 s3) ->
  (forall x s, In x l -> R s (snd (f x s))) ->
  forall s, R s (snd (mapM f l s)).
Proof.
  intros Hrefl Htrans. induction l as [| x rest IH]; intros Hstep s.
  - apply Hrefl.
  - cbn [mapM]. unfold bind.
    pose proof (Hstep x s (or_introl eq_refl)) as Hx.
    destruct (f x s) as [y s1]. cbn [snd] in Hx.
    assert (Hrest : R s1 (snd (mapM f rest s1))).
    { apply IH. intros z s' Hz. apply Hstep. right. exact Hz. }
    destruct (mapM f rest s1) as [ys s2]. unfold ret. cbn [snd] in *.
    eapply Htrans; eassumption.
Qed.

Lemma snd_then_ret {A} (m : M A) (s : State) :
  snd ((_ <- m ;; ret tt)%js s) = snd (m s).
Proof. unfold bind, ret. destruct (m s). reflexivity. Qed.

(** ** What enters the pending-unmount queue *)

Lemma queue_provenance_sub (a : Adapter) (urls : list CssUrl) (s s' : State) :
  arrays (browser s') = arrays (browser s) ->
  doc_next (document (browser s)) <= doc_next (document (browser s')) ->
  (forall entry, In entry (linkElementsToUnmount s') -> In entry (linkElementsToUnmount s)) ->
  queue_provenance a urls s s'.
Proof. intros Ha Hn Hq. repeat split; auto. Qed.

Lemma queue_provenance_refl (a : Adapter) (urls : list CssUrl) (s : State) :
  queue_provenance a urls s s.
Proof. apply queue_provenance_sub; auto. Qed.

Lemma queue_provenance_trans (a : Adapter) (urls : list CssUrl) (s1 s2 s3 : State) :
  queue_provenance a urls s1 s2 -> queue_provenance a urls s2 s3 ->
  queue_provenance a urls s1 s3.
Proof.
  intros (Ha1 & Hn1 & Hq1) (Ha2 & Hn2 & Hq2).
  split; [congruence | split; [lia |]].
  intros entry Hin.
  destruct (Hq2 entry Hin) as [Hold | (c & n & Hc & Hu & Hf & Hn & He)].
  - destruct (Hq1 entry Hold) as [Hold1 | (c & n & Hc & Hu & Hf & Hn & He)]; [left; exact Hold1 |].
    right. exists c, n. repeat split; auto; lia.
  - right. exists c, n. repeat split; auto; lia.
Qed.

Lemma mount_step_provenance (a : Adapter) (urls : list CssUrl) (c : CssUrl) (s : State) :
  In c urls ->
  queue_provenance a urls s (snd (new_Promise (mount_executor a c) s)).
Proof.
  intros Hc.
  destruct (mount_step_cases a c s) as [(el & _ & ->) | [(_ & _ & ->) | (_ & ->)]].
  - apply queue_provenance_sub; cbn; auto.
  - split; [reflexivity | split; [cbn; lia |]].
    cbn [linkElementsToUnmount browser document doc_next].
    intros entry Hin.
    destruct (truthy (snd (extractUrl (opts a) c))) eqn:Hflag; [| left; exact Hin].
    apply in_app_or in Hin. destruct Hin as [Hold | [<- | []]]; [left; exact Hold |].
    right. exists c, (doc_next (document (browser s))).
    cbn. repeat split; auto.
  - apply queue_provenance_sub; cbn; auto.
Qed.

Lemma bootstrap_step_provenance (a : Adapter) (urls : list CssUrl) (c : CssUrl) (s : State) :
  queue_provenance a urls s (snd (new_Promise (bootstrap_executor a c) s)).
Proof.
  destruct (bootstrap_step_cases a c s) as [(el & _ & ->) | [(_ & ->) | (_ & ->)]];
    apply queue_provenance_sub; cbn; auto.
Qed.

Lemma dispatchEvent_provenance (a : Adapter) (urls : list CssUrl)
    (ty : EventType) (node : nat) (s : State) :
  queue_provenance a urls s (snd (dispatchEvent ty node s)).
Proof.
  unfold dispatchEvent. unfold bind at 1. unfold gets at 1.
  rewrite snd_then_ret.
  apply (mapM_preorder _ (queue_provenance a urls)).
  - apply queue_provenance_refl.
  - apply queue_provenance_trans.
  - intros l s1 _.
    destruct (_ && _); apply queue_provenance_sub; cbn; auto.
Qed.

Lemma run_microtask_provenance (a : Adapter) (urls : list CssUrl) (s : State) :
  queue_provenance a urls s (snd (run_microtask s)).
Proof.
  destruct s as [[ar d ps ls ms se] reg q]. destruct ms as [| j rest].
  - apply queue_provenance_refl.
  - assert (Hstep : run_microtask (mkState (mkBrowser ar d ps ls (j :: rest) se) reg q)
                    = run_job j (mkState (mkBrowser ar d ps ls rest se) reg q)) by reflexivity.
    rewrite Hstep, run_job_eq.
    apply queue_provenance_sub; cbn; auto.
    destruct (existsb _ _); cbn; lia.
Qed.

Lemma unmount_provenance (a : Adapter) (urls : list CssUrl) (s : State) :
  queue_provenance a urls s (snd (unmount a s)).
Proof.
  destruct s as [[ar d ps ls ms se] reg q].
  destruct (mapM_then q ar d ps ls ms se reg []) as (new & Heq & _).
  assert (H1 : unmount a (mkState (mkBrowser ar d ps ls ms se) reg q)
               = (map job_promise new,
                  mkState (mkBrowser ar d (ps ++ replicate (length q) Pending) ls (ms ++ new) se)
                    reg [])).
  { unfold unmount, bind, gets, modify. cbn. exact Heq. }
  rewrite H1. apply queue_provenance_sub; cbn; auto. intros entry [].
Qed.

Lemma mount_provenance (a : Adapter) (s : State) :
  queue_provenance a (stylesheets a s) s (snd (mount a s)).
Proof.
  unfold mount. unfold bind at 1. unfold read_array, gets.
  fold (stylesheets a s).
  apply (mapM_preorder _ (queue_provenance a (stylesheets a s))).
  - apply queue_provenance_refl.
  - apply queue_provenance_trans.
  - intros c s1 Hc. apply mount_step_provenance. exact Hc.
Qed.

Lemma bootstrap_provenance (a : Adapter) (urls : list CssUrl) (s : State) :
  queue_provenance a urls s (snd (bootstrap a s)).
Proof.
  unfold bootstrap. unfold bind at 1. unfold read_array, gets.
  apply (mapM_preorder _ (queue_provenance a urls)).
  - apply queue_provenance_refl.
  - apply queue_provenance_trans.
  - intros c s1 _. apply bootstrap_step_provenance.
Qed.

Lemma step_provenance (a : Adapter) (act : Action) (s : State) :
  queue_provenance a (stylesheets a s) s (snd (step a act s)).
Proof.
  destruct act; cbn [step]; rewrite ?snd_then_ret.
  - apply bootstrap_provenance.
  - apply mount_provenance.
  - apply unmount_provenance.
  - apply run_microtask_provenance.
  - apply dispatchEvent_provenance.
Qed.

Lemma run_provenance (a : Adapter) (trace : list Action) :
  forall s, queue_provenance a (stylesheets a s) s (snd (run a trace s)).
Proof.
  induction trace as [| act rest IH]; intros s.
  - apply queue_provenance_refl.
  - cbn [run]. unfold bind.
    pose proof (step_provenance a act s) as Hstep.
    destruct (step a act s) as [[] s1]. cbn [snd] in Hstep.
    specialize (IH s1).
    assert (Hsame : stylesheets a s1 = stylesheets a s).
    { unfold stylesheets. destruct Hstep as (-> & _). reflexivity. }
    rewrite Hsame in IH.
    eapply queue_provenance_trans; eassumption.
Qed.

(** A URL all of whose references carry a falsy flag never enters the
    queue. *)
Lemma falsy_url_never_queued (a : Adapter) (trace : list Action) (s : State) (url : string) :
  (forall c, In c (stylesheets a s) -> fst (extractUrl (opts a) c) = url ->
             truthy (snd (extractUrl (opts a) c)) = false) ->
  forall e, In (e, url) (linkElementsToUnmount (snd (run a trace s))) ->
            In (e, url) (linkElementsToUnmount s).
Proof.
  intros Hfalsy e Hin.
  destruct (run_provenance a trace s) as (_ & _ & Hq).
  destruct (Hq (e, url) Hin) as [Hold | (c & n & Hc & Hu & Hf & _)]; [exact Hold |].
  rewrite (Hfalsy c Hc Hu) in Hf. discriminate.
Qed.

(** C4: after any sequence of [mount] calls -- and of any other lifecycle
    calls, microtasks and events -- an entry of the pending-unmount queue
    that was not there at the start is an element that the adapter's
    factory built on a node created in between, for a reference of the
    array whose [shouldUnmount] flag is truthy.  The executor of [mount]
    queues nothing when its [querySelector] gives it an element of the
    document, which it adopts (nor when that call throws), and nothing when
    the flag is falsy.  In particular it queues nothing for a record whose
    own [shouldUnmount] is [false], whatever the configuration-level flag;
    and a URL that the array refers to by such records only never enters
    the queue. *)
Theorem queue_holds_only_created_and_flagged (a : Adapter) :
  (forall (trace : list Action) (s : State),
     let s' := snd (run a trace s) in
     forall entry, In entry (linkElementsToUnmount s') ->
       In entry (linkElementsToUnmount s) \/
       created_by a (stylesheets a s)
         (doc_next (document (browser s))) (doc_next (document (browser s'))) entry) /\
  (forall (cssUrl : CssUrl) (p : nat) (s : State),
     stylesheet_query (fst (extractUrl (opts a) cssUrl)) s <> Selected None \/
     truthy (snd (extractUrl (opts a) cssUrl)) = false ->
     linkElementsToUnmount (snd (mount_executor a cssUrl p s)) = linkElementsToUnmount s) /\
  (forall (href : string) (p : nat) (s : State),
     linkElementsToUnmount
       (snd (mount_executor a (CssUrlObject href (Some (FlagBool false))) p s))
     = linkElementsToUnmount s) /\
  (forall (href : string) (trace : list Action) (s : State),
     (forall c, In c (stylesheets a s) -> fst (extractUrl (opts a) c) = href ->
                c = CssUrlObject href (Some (FlagBool false))) ->
     forall e, In (e, href) (linkElementsToUnmount (snd (run a trace s))) ->
               In (e, href) (linkElementsToUnmount s)).
Proof.
  assert (Hstep : forall (cssUrl : CssUrl) (p : nat) (s : State),
    stylesheet_query (fst (extractUrl (opts a) cssUrl)) s <> Selected None \/
    truthy (snd (extractUrl (opts a) cssUrl)) = false ->
    linkElementsToUnmount (snd (mount_executor a cssUrl p s)) = linkElementsToUnmount s).
  { intros c p s Hcase.
    destruct (mount_executor_cases a c p s)
      as [(el & _ & ->) | [(Hq & _ & ->) | (_ & ->)]]; [reflexivity | | reflexivity].
    cbn. destruct Hcase as [Hne | ->]; [contradiction | reflexivity]. }
  split; [| split; [exact Hstep | split]].
  - intros trace s. cbn zeta. apply (run_provenance a trace s).
  - intros href p s. apply Hstep. right. reflexivity.
  - intros href trace s Hrecords. apply falsy_url_never_queued.
    intros c Hc Hu. rewrite (Hrecords c Hc Hu). reflexivity.
Qed.

(** C10: a record whose [shouldUnmount] property is present and holds
    [undefined] is given that [undefined] as its flag, not the
    configuration-level flag.  The flag is falsy: whatever the
    configuration-level flag and whatever the document holds, the executor
    of [mount] for that record leaves the pending-unmount queue as it was,
    and a URL that the array refers to by such records only never enters
    the queue. *)
Theorem own_undefined_flag_is_kept (a : Adapter) (href : string) :
  extractUrl (opts a) (CssUrlObject href (Some FlagUndefined)) = (href, FlagUndefined) /\
  truthy (snd (extractUrl (opts a) (CssUrlObject href (Some FlagUndefined)))) = false /\
  (forall (p : nat) (s : State),
     linkElementsToUnmount
       (snd (mount_executor a (CssUrlObject href (Some FlagUndefined)) p s))
     = linkElementsToUnmount s) /\
  (forall (trace : list Action) (s : State),
     (forall c, In c (stylesheets a s) -> fst (extractUrl (opts a) c) = href ->
                c = CssUrlObject href (Some FlagUndefined)) ->
     forall e, In (e, href) (linkElementsToUnmount (snd (run a trace s))) ->
               In (e, href) (linkElementsToUnmount s)).
Proof.
  split; [reflexivity | split; [reflexivity | split]].
  - intros p s.
    destruct (mount_executor_cases a (CssUrlObject href (Some FlagUndefined)) p s)
      as [(el & _ & ->) | [(_ & _ & ->) | (_ & ->)]]; reflexivity.
  - intros trace s Hrecords. apply falsy_url_never_queued.
    intros c Hc Hu. rewrite (Hrecords c Hc Hu). reflexivity.
Qed.

(** ** Lists, tables and maps of steps *)

Lemma find_app {A} (p : A -> bool) (l1 l2 : list A) :
  List.find p (l1 ++ l2)
  = match List.find p l1 with
    | Some x => Some x
    | None => List.find p l2
    end.
Proof.
  induction l1 as [| x rest IH]; [reflexivity |].
  cbn. destruct (p x); [reflexivity | exact IH].
Qed.

Lemma settle_new (ps : list PromiseState) :
  settle (length ps) (ps ++ [Pending]) !! length ps = Some Fulfilled.
Proof.
  unfold settle.
  assert (Hlook : (ps ++ [Pending]) !! length ps = Some Pending).
  { rewrite lookup_app_r by lia. rewrite Nat.sub_diag. reflexivity. }
  rewrite Hlook. apply list_lookup_insert_eq. rewrite length_app. cbn. lia.
Qed.

Lemma settle_keeps_fulfilled (q p : nat) (ps : list PromiseState) :
  ps !! p = Some Fulfilled -> settle q ps !! p = Some Fulfilled.
Proof.
  intros Hp. unfold settle. destruct (ps !! q) as [[| |] |] eqn:Hq; try exact Hp.
  destruct (decide (q = p)) as [-> | Hne]; [congruence |].
  rewrite list_lookup_insert_ne by exact Hne. exact Hp.
Qed.

Lemma settle_length (q : nat) (ps : list PromiseState) :
  length (settle q ps) = length ps.
Proof.
  unfold settle. destruct (ps !! q) as [[| |] |]; try reflexivity.
  apply length_insert.
Qed.

Lemma settle_other (q p : nat) (ps : list PromiseState) :
  q <> p -> settle q ps !! p = ps !! p.
Proof.
  intros Hne. unfold settle. destruct (ps !! q) as [[| |] |]; try reflexivity.
  apply list_lookup_insert_ne. exact Hne.
Qed.


Lemma settle_pending_or_fulfilled (q p : nat) (ps : list PromiseState) :
  ps !! p = Some Pending \/ ps !! p = Some Fulfilled ->
  settle q ps !! p = Some Pending \/ settle q ps !! p = Some Fulfilled.
Proof.
  intros [Hp | Hp]; [| right; apply settle_keeps_fulfilled; exact Hp].
  destruct (decide (q = p)) as [-> | Hne].
  - right. unfold settle. rewrite Hp.
    apply list_lookup_insert_eq. apply lookup_lt_Some in Hp. exact Hp.
  - left. rewrite settle_other by exact Hne. exact Hp.
Qed.

Lemma settle_fulfils (p : nat) (ps : list PromiseState) :
  ps !! p = Some Pending \/ ps !! p = Some Fulfilled ->
  settle p ps !! p = Some Fulfilled.
Proof.
  intros [Hp | Hp]; [| apply settle_keeps_fulfilled; exact Hp].
  unfold settle. rewrite Hp.
  apply list_lookup_insert_eq. apply lookup_lt_Some in Hp. exact Hp.
Qed.

Lemma mapM_cons {A B} (f : A -> M B) (x : A) (l : list A) (s : State) :
  mapM f (x :: l) s
  = (fst (f x s) :: fst (mapM f l (snd (f x s))), snd (mapM f l (snd (f x s)))).
Proof.
  cbn [mapM]. unfold bind, ret. destruct (f x s) as [y s1]. cbn [fst snd].
  destruct (mapM f l s1) as [ys s2]. reflexivity.
Qed.

Lemma mapM_app {A B} (f : A -> M B) (l1 l2 : list A) (s : State) :
  mapM f (l1 ++ l2) s
  = (fst (mapM f l1 s) ++ fst (mapM f l2 (snd (mapM f l1 s))),
     snd (mapM f l2 (snd (mapM f l1 s)))).
Proof.
  revert s. induction l1 as [| x rest IH]; intros s.
  - cbn. destruct (mapM f l2 s). reflexivity.
  - rewrite <- app_comm_cons, !mapM_cons, IH. reflexivity.
Qed.

Lemma mapM_length {A B} (f : A -> M B) (l : list A) (s : State) :
  length (fst (mapM f l s)) = length l.
Proof.
  revert s. induction l as [| x rest IH]; intros s; [reflexivity |].
  rewrite mapM_cons. cbn. rewrite IH. reflexivity.
Qed.

Lemma mapM_invariant {A B} (f : A -> M B) (I : State -> Prop) (l : list A) :
  (forall x s, In x l -> I s -> I (snd (f x s))) ->
  forall s, I s -> I (snd (mapM f l s)).
Proof.
  intros Hstep s.
  apply (mapM_preorder f (fun s1 s2 => I s1 -> I s2)); auto.
Qed.

Lemma mapM_results {A B} (f : A -> M B) (I : State -> Prop) (R : B -> State -> Prop)
    (l : list A) :
  (forall x s, In x l -> I s -> I (snd (f x s)) /\ R (fst (f x s)) (snd (f x s))) ->
  (forall x y s, In x l -> I s -> R y s -> R y (snd (f x s))) ->
  forall s, I s ->
    I (snd (mapM f l s)) /\ Forall (fun y => R y (snd (mapM f l s))) (fst (mapM f l s)).
Proof.
  induction l as [| x rest IH]; intros Hstep Hstable s Hs.
  - cbn. split; [exact Hs | constructor].
  - rewrite mapM_cons. cbn [fst snd].
    destruct (Hstep x s (or_introl eq_refl) Hs) as [Hs1 Hy].
    assert (Hstep' : forall z s0, In z rest -> I s0 ->
                       I (snd (f z s0)) /\ R (fst (f z s0)) (snd (f z s0))).
    { intros z s0 Hz. apply Hstep. right. exact Hz. }
    assert (Hstable' : forall z y s0, In z rest -> I s0 -> R y s0 -> R y (snd (f z s0))).
    { intros z y s0 Hz. apply Hstable. right. exact Hz. }
    destruct (IH Hstep' Hstable' (snd (f x s)) Hs1) as [Hs2 Hrest].
    split; [exact Hs2 |]. constructor; [| exact Hrest].
    apply (mapM_invariant f (fun s0 => I s0 /\ R (fst (f x s)) s0) rest); [| split; assumption].
    intros z s0 Hz [HI HR]. split.
    + apply (Hstep' z s0 Hz HI).
    + apply (Hstable' z _ s0 Hz HI HR).
Qed.

Lemma run_cons_snd (a : Adapter) (act : Action) (rest : list Action) (s : State) :
  snd (run a (act :: rest) s) = snd (run a rest (snd (step a act s))).
Proof.
  cbn [run]. unfold bind. destruct (step a act s) as [[] s1]. reflexivity.
Qed.

Lemma dispatchEvent_unfold (ty : EventType) (node : nat) (s : State) :
  snd (dispatchEvent ty node s)
  = snd (mapM (fun l => if Nat.eqb (lis_target l) node && EventType_eqb (lis_type l) ty
                        then resolve (lis_resolves l) else ret tt)
           (listeners (browser s)) s).
Proof.
  unfold dispatchEvent. unfold bind at 1. unfold gets at 1. apply snd_then_ret.
Qed.

Lemma unmount_eq (a : Adapter) ar d ps ls ms se reg q :
  exists new : list Job,
    unmount a (mkState (mkBrowser ar d ps ls ms se) reg q)
    = (map job_promise new,
       mkState (mkBrowser ar d (ps ++ replicate (length q) Pending) ls (ms ++ new) se) reg []) /\
    map (fun j => (job_linkEl j, job_url j)) new = q /\
    map job_promise new = seq (length ps) (length q).
Proof.
  destruct (mapM_then q ar d ps ls ms se reg []) as (new & Heq & Hpairs & Hids).
  exists new. split; [| split; assumption].
  unfold unmount, bind, gets, modify. cbn. exact Heq.
Qed.


(** An executor of [mount] leaves the promises that were there as they
    were. *)
Lemma mount_step_old_promises (a : Adapter) (c : CssUrl) (s : State) (q : nat) :
  q < length (promises (browser s)) ->
  promises (browser (snd (new_Promise (mount_executor a c) s))) !! q
  = promises (browser s) !! q.
Proof.
  intros Hq.
  destruct (mount_step_cases a c s) as [(el & _ & ->) | [(_ & _ & ->) | (_ & ->)]]; cbn;
    rewrite ?settle_other by lia; apply lookup_app_l; exact Hq.
Qed.

Lemma bootstrap_step_promises (a : Adapter) (c : CssUrl) (s : State) :
  length (promises (browser (snd (new_Promise (bootstrap_executor a c) s))))
  = S (length (promises (browser s))) /\
  forall q, q < length (promises (browser s)) ->
    promises (browser (snd (new_Promise (bootstrap_executor a c) s))) !! q
    = promises (browser s) !! q.
Proof.
  destruct (bootstrap_step_cases a c s) as [(el & _ & ->) | [(_ & ->) | (_ & ->)]]; cbn;
    rewrite ?settle_length, length_app; (split; [cbn; lia |]);
    intros q Hq; rewrite ?settle_other by lia; apply lookup_app_l; exact Hq.
Qed.


(** ** The state of [Promise.all] *)

Lemma Promise_all_fulfilled (table : list PromiseState) (ps : list nat) :
  Forall (fun p => table !! p = Some Fulfilled) ps ->
  Promise_all table ps = Fulfilled.
Proof.
  intros Hall. unfold Promise_all.
  assert (Hstates : forall st, In st (map (fun q => default Pending (table !! q)) ps) ->
                               st = Fulfilled).
  { intros st Hst. apply in_map_iff in Hst. destruct Hst as (q & <- & Hq).
    rewrite Forall_forall in Hall. rewrite (Hall q (proj2 (list_elem_of_In _ _) Hq)).
    reflexivity. }
  assert (Hnone : existsb (fun st => match st with Rejected => true | _ => false end)
                    (map (fun q => default Pending (table !! q)) ps) = false).
  { rewrite existsb_false_iff. intros st Hst. rewrite (Hstates st Hst). reflexivity. }
  assert (Hall' : forallb (fun st => match st with Fulfilled => true | _ => false end)
                    (map (fun q => default Pending (table !! q)) ps) = true).
  { rewrite forallb_forall. intros st Hst. rewrite (Hstates st Hst). reflexivity. }
  rewrite Hnone, Hall'. reflexivity.
Qed.




(** ** Promises that wait for a load event *)

Section PromiseInvariant.

Variable watch : option (nat * nat).

Lemma invariant_watched_old ps ls ms p n :
  promise_invariant watch ps ls ms -> watch = Some (p, n) -> p < length ps.
Proof.
  intros (_ & _ & Hw) ->. destruct Hw as (Hp & _).
  apply lookup_lt_Some in Hp. exact Hp.
Qed.

Lemma invariant_alloc ps ls ms st :
  promise_invariant watch ps ls ms ->
  promise_invariant watch (ps ++ [st]) ls ms.
Proof.
  intros (Hls & Hms & Hw).
  split; [| split].
  - eapply Forall_impl; [exact Hls |]. cbn. intros l Hl. rewrite length_app. lia.
  - eapply Forall_impl; [exact Hms |]. cbn. intros j Hj. rewrite length_app. lia.
  - destruct watch as [[p n] |]; [| exact I].
    destruct Hw as (Hp & Hl & Hj). split; [| split; assumption].
    apply lookup_app_l_Some. exact Hp.
Qed.

Lemma invariant_settle ps ls ms q :
  (forall p n, watch = Some (p, n) -> q <> p) ->
  promise_invariant watch ps ls ms ->
  promise_invariant watch (settle q ps) ls ms.
Proof.
  intros Hq (Hls & Hms & Hw).
  split; [| split].
  - rewrite settle_length. exact Hls.
  - rewrite settle_length. exact Hms.
  - destruct watch as [[p n] |]; [| exact I].
    destruct Hw as (Hp & Hl & Hj). split; [| split; assumption].
    rewrite settle_other by (apply (Hq p n); reflexivity). exact Hp.
Qed.

Lemma invariant_listen ps ls ms node ty q :
  q < length ps ->
  (forall p n, watch = Some (p, n) -> q <> p) ->
  promise_invariant watch ps ls ms ->
  promise_invariant watch ps
    (ls ++ [{| lis_target := node; lis_type := ty; lis_resolves := q |}]) ms.
Proof.
  intros Hlt Hq (Hls & Hms & Hw).
  split; [| split; [exact Hms |]].
  - apply Forall_app. split; [exact Hls | apply Forall_singleton; exact Hlt].
  - destruct watch as [[p n] |]; [| exact I].
    destruct Hw as (Hp & Hl & Hj). split; [exact Hp | split; [| exact Hj]].
    apply Forall_app. split; [exact Hl |]. apply Forall_singleton. cbn.
    intros Heq. exfalso. apply (Hq p n); [reflexivity | exact Heq].
Qed.

Lemma invariant_queue_job ps ls ms e u q :
  q < length ps ->
  (forall p n, watch = Some (p, n) -> q <> p) ->
  promise_invariant watch ps ls ms ->
  promise_invariant watch ps ls
    (ms ++ [{| job_linkEl := e; job_url := u; job_promise := q |}]).
Proof.
  intros Hlt Hq (Hls & Hms & Hw).
  split; [exact Hls | split].
  - apply Forall_app. split; [exact Hms | apply Forall_singleton; exact Hlt].
  - destruct watch as [[p n] |]; [| exact I].
    destruct Hw as (Hp & Hl & Hj). split; [exact Hp | split; [exact Hl |]].
    apply Forall_app. split; [exact Hj |]. apply Forall_singleton. cbn.
    apply (Hq p n). reflexivity.
Qed.

Lemma invariant_pop ps ls j ms :
  promise_invariant watch ps ls (j :: ms) ->
  promise_invariant watch ps ls ms /\
  (forall p n, watch = Some (p, n) -> job_promise j <> p).
Proof.
  intros (Hls & Hms & Hw).
  apply Forall_cons in Hms. destruct Hms as [_ Hms].
  split.
  - split; [exact Hls | split; [exact Hms |]].
    destruct watch as [[p n] |]; [| exact I].
    destruct Hw as (Hp & Hl & Hj). apply Forall_cons in Hj. tauto.
  - intros p n ->. destruct Hw as (_ & _ & Hj). apply Forall_cons in Hj. tauto.
Qed.

(** The promise allocated next is not the watched one. *)
Lemma invariant_next_fresh ps ls ms :
  promise_invariant watch ps ls ms ->
  forall p n, watch = Some (p, n) -> length ps <> p.
Proof.
  intros Hinv p n Hw. pose proof (invariant_watched_old _ _ _ _ _ Hinv Hw). lia.
Qed.

End PromiseInvariant.

Section StateInvariant.

Variable a : Adapter.
Variable watch : option (nat * nat).

Lemma mount_step_invariant (c : CssUrl) (s : State) :
  state_invariant watch s ->
  state_invariant watch (snd (new_Promise (mount_executor a c) s)).
Proof.
  intros Hinv.
  pose proof (invariant_next_fresh _ _ _ _ Hinv) as Hfresh.
  destruct (mount_step_cases a c s) as [(el & _ & ->) | [(_ & _ & ->) | (_ & ->)]];
    unfold state_invariant; cbn.
  - apply invariant_settle; [exact Hfresh |]. apply invariant_alloc. exact Hinv.
  - apply invariant_listen; [rewrite length_app; cbn; lia | exact Hfresh |].
    apply invariant_alloc. exact Hinv.
  - apply invariant_alloc. exact Hinv.
Qed.

Lemma bootstrap_step_invariant (c : CssUrl) (s : State) :
  state_invariant watch s ->
  state_invariant watch (snd (new_Promise (bootstrap_executor a c) s)).
Proof.
  intros Hinv.
  pose proof (invariant_next_fresh _ _ _ _ Hinv) as Hfresh.
  destruct (bootstrap_step_cases a c s) as [(el & _ & ->) | [(_ & ->) | (_ & ->)]];
    unfold state_invariant; cbn.
  - apply invariant_settle; [exact Hfresh |]. apply invariant_alloc. exact Hinv.
  - apply invariant_settle; [exact Hfresh |]. apply invariant_alloc. exact Hinv.
  - apply invariant_alloc. exact Hinv.
Qed.

Lemma then_step_invariant (e : Element) (u : string) (s : State) :
  state_invariant watch s ->
  state_invariant watch (snd (Promise_resolve_then e u s)).
Proof.
  intros Hinv. pose proof (invariant_next_fresh _ _ _ _ Hinv) as Hfresh.
  unfold state_invariant. cbn.
  apply invariant_queue_job; [rewrite length_app; cbn; lia | exact Hfresh |].
  apply invariant_alloc. exact Hinv.
Qed.

Lemma mount_invariant (s : State) :
  state_invariant watch s -> state_invariant watch (snd (mount a s)).
Proof.
  rewrite mount_unfold.
  apply mapM_invariant. intros c s1 _. apply mount_step_invariant.
Qed.

Lemma bootstrap_invariant (s : State) :
  state_invariant watch s -> state_invariant watch (snd (bootstrap a s)).
Proof.
  rewrite bootstrap_unfold.
  apply mapM_invariant. intros c s1 _. apply bootstrap_step_invariant.
Qed.

Lemma unmount_invariant (s : State) :
  state_invariant watch s -> state_invariant watch (snd (unmount a s)).
Proof.
  intros Hinv. unfold unmount. unfold bind at 1. unfold gets. unfold bind at 1.
  unfold modify.
  apply mapM_invariant; [| exact Hinv].
  intros entry s1 _. apply then_step_invariant.
Qed.

Lemma run_microtask_invariant (s : State) :
  state_invariant watch s -> state_invariant watch (snd (run_microtask s)).
Proof.
  destruct s as [[ar d ps ls ms se] reg q]. destruct ms as [| j rest]; [auto |].
  intros Hinv.
  assert (Hstep : run_microtask (mkState (mkBrowser ar d ps ls (j :: rest) se) reg q)
                  = run_job j (mkState (mkBrowser ar d ps ls rest se) reg q)) by reflexivity.
  rewrite Hstep, run_job_eq. unfold state_invariant in *. cbn in *.
  destruct (invariant_pop _ _ _ _ _ Hinv) as [Hrest Hj].
  apply invariant_settle; assumption.
Qed.

Lemma dispatchEvent_invariant (ty : EventType) (node : nat) (s : State) :
  spares watch (Dispatch ty node) ->
  state_invariant watch s ->
  state_invariant watch (snd (dispatchEvent ty node s)).
Proof.
  intros Hspare Hinv.
  rewrite dispatchEvent_unfold.
  assert (Hls : forall l, In l (listeners (browser s)) ->
                Nat.eqb (lis_target l) node && EventType_eqb (lis_type l) ty = true ->
                forall p n, watch = Some (p, n) -> lis_resolves l <> p).
  { intros l Hl Hmatch p n Hw Heq.
    destruct Hinv as (_ & _ & Hwatch). rewrite Hw in Hwatch.
    destruct Hwatch as (_ & Hall & _). rewrite Forall_forall in Hall.
    destruct (Hall l (proj2 (list_elem_of_In _ _) Hl) Heq) as [Ht Hty].
    apply andb_true_iff in Hmatch. destruct Hmatch as [Hn Hty'].
    apply Nat.eqb_eq in Hn. rewrite Hty in Hty'. rewrite Hw in Hspare.
    destruct ty; cbn in *; [congruence | discriminate]. }
  apply mapM_invariant; [| exact Hinv].
  intros l s1 Hl Hinv1.
  destruct (Nat.eqb (lis_target l) node && EventType_eqb (lis_type l) ty) eqn:Hmatch;
    [| exact Hinv1].
  unfold state_invariant. cbn. apply invariant_settle; [| exact Hinv1].
  apply Hls; assumption.
Qed.

Lemma step_invariant (act : Action) (s : State) :
  spares watch act ->
  state_invariant watch s -> state_invariant watch (snd (step a act s)).
Proof.
  intros Hspare Hinv. destruct act; cbn [step]; rewrite ?snd_then_ret.
  - apply bootstrap_invariant, Hinv.
  - apply mount_invariant, Hinv.
  - apply unmount_invariant, Hinv.
  - apply run_microtask_invariant, Hinv.
  - apply dispatchEvent_invariant; assumption.
Qed.

Lemma run_invariant (trace : list Action) :
  Forall (spares watch) trace ->
  forall s, state_invariant watch s -> state_invariant watch (snd (run a trace s)).
Proof.
  induction trace as [| act rest IH]; intros Hspare s Hinv; [exact Hinv |].
  apply Forall_cons in Hspare. destruct Hspare as [Hact Hrest].
  cbn [run]. unfold bind.
  pose proof (step_invariant act s Hact Hinv) as Hstep.
  destruct (step a act s) as [[] s1]. apply IH; assumption.
Qed.

End StateInvariant.



(** Well-formedness is kept by everything that can happen. *)
Lemma run_keeps_wf (a : Adapter) (trace : list Action) (s : State) :
  wf_state s -> wf_state (snd (run a trace s)).
Proof.
  intros [Hls Hms].
  assert (H0 : state_invariant None s) by (split; [exact Hls | split; [exact Hms | exact I]]).
  assert (Hspare : Forall (spares None) trace).
  { apply Forall_forall. intros act _. exact I. }
  destruct (run_invariant a None trace Hspare s H0) as (Hls' & Hms' & _).
  split; assumption.
Qed.

(** ** Rejections are final, and only executors reject *)











(** The other direction: a [load] event on the node of a pending promise
    with a [load] listener there fulfils it. *)
Lemma load_event_fulfils (node p : nat) (s : State) :
  In {| lis_target := node; lis_type := LoadEvent; lis_resolves := p |}
     (listeners (browser s)) ->
  promises (browser s) !! p = Some Pending ->
  promises (browser (snd (dispatchEvent LoadEvent node s))) !! p = Some Fulfilled.
Proof.
  intros Hin Hp.
  rewrite dispatchEvent_unfold.
  set (f := fun l : Listener =>
              if Nat.eqb (lis_target l) node && EventType_eqb (lis_type l) LoadEvent
              then resolve (lis_resolves l) else ret tt).
  apply in_split in Hin. destruct Hin as (l1 & l2 & ->).
  rewrite mapM_app, mapM_cons. cbn [snd].
  set (s1 := snd (mapM f l1 s)).
  assert (H1 : promises (browser s1) !! p = Some Pending \/
               promises (browser s1) !! p = Some Fulfilled).
  { apply (mapM_invariant f
             (fun s0 => promises (browser s0) !! p = Some Pending \/
                        promises (browser s0) !! p = Some Fulfilled)); [| left; exact Hp].
    intros l s0 _ Hs0. unfold f. destruct (_ && _); [| exact Hs0]. cbn.
    apply settle_pending_or_fulfilled, Hs0. }
  assert (H2 : promises (browser (snd (f {| lis_target := node; lis_type := LoadEvent;
                                            lis_resolves := p |} s1))) !! p
               = Some Fulfilled).
  { unfold f. cbn. rewrite Nat.eqb_refl. cbn. apply settle_fulfils, H1. }
  apply (mapM_invariant f (fun s0 => promises (browser s0) !! p = Some Fulfilled));
    [| exact H2].
  intros l s0 _ Hs0. unfold f. destruct (_ && _); [| exact Hs0]. cbn.
  apply settle_keeps_fulfilled. exact Hs0.
Qed.

(** ** Adoption, and where it fails *)

(** C1 (not met by the code): the page holds a stylesheet link for the URL
    [a\b.css], and the array lists that URL.  In the selector text the
    backslash and the [b] are an escape, so [querySelector] looks for
    another [href] and returns [null].  [mount] does not adopt the link:
    it inserts a second element for the URL, records that one, queues it,
    and its promise waits for a [load] event. *)
Theorem mount_misses_a_link_whose_url_has_a_backslash :
  let a := sample_adapter in
  let s := state_over [CssUrlString backslash_url] page_with_backslash_link in
  let r := mount a s in
  let present := stylesheet_link 0 backslash_url in
  let second := created 1 (createLink defaultOptions) backslash_url in
  In present (doc_elements (document (browser s))) /\
  matches (stylesheet_selector backslash_url) present = true /\
  stylesheet_query backslash_url s = Selected None /\
  doc_elements (document (browser (snd r))) = [present; second] /\
  linkElements (snd r) !! backslash_url = Some second /\
  linkElementsToUnmount (snd r) = [(second, backslash_url)] /\
  promises (browser (snd r)) = [Pending] /\
  Promise_all (promises (browser (snd r))) (fst r) = Pending.
Proof. vm_compute. repeat split. left. reflexivity. Qed.

(** For the same reason [mount] does not find the element it created
    itself: called twice on an empty page, it inserts and queues two
    elements for the one URL, and the second call waits for a [load] event
    as the first did. *)
Example mount_twice_with_a_backslash_creates_twice :
  let a := sample_adapter in
  let s := state_over [CssUrlString backslash_url] empty_document in
  let r1 := mount a s in
  let r2 := mount a (snd r1) in
  doc_elements (document (browser (snd r2)))
  = [created 0 (createLink defaultOptions) backslash_url;
     created 1 (createLink defaultOptions) backslash_url] /\
  length (linkElementsToUnmount (snd r2)) = 2%nat /\
  Promise_all (promises (browser (snd r2))) (fst r2) = Pending.
Proof. vm_compute. repeat split. Qed.

(** On a URL with a double quote [querySelector] throws: [bootstrap] and
    [mount] insert nothing, record nothing, and return a rejected
    promise. *)
Example quoted_url_rejects :
  let a := sample_adapter in
  let s := state_over [CssUrlString quoted_url] empty_document in
  let rb := bootstrap a s in
  let rm := mount a s in
  preload_query quoted_url s = SyntaxError /\
  stylesheet_query quoted_url s = SyntaxError /\
  doc_elements (document (browser (snd rb))) = [] /\
  Promise_all (promises (browser (snd rb))) (fst rb) = Rejected /\
  doc_elements (document (browser (snd rm))) = [] /\
  linkElements (snd rm) = ∅ /\
  linkElementsToUnmount (snd rm) = [] /\
  Promise_all (promises (browser (snd rm))) (fst rm) = Rejected.
Proof. vm_compute. repeat split. Qed.

(** A link whose [rel] is spelled in capitals is a stylesheet link to the
    selector: [mount] adopts it. *)
Example capital_rel_is_adopted :
  let a := sample_adapter in
  let s := state_over [CssUrlString "a.css"] page_with_capital_rel in
  let r := mount a s in
  document (browser (snd r)) = page_with_capital_rel /\
  linkElements (snd r) !! "a.css" = List.head (doc_body page_with_capital_rel) /\
  linkElementsToUnmount (snd r) = [] /\
  Promise_all (promises (browser (snd r))) (fst r) = Fulfilled.
Proof. vm_compute. repeat split. Qed.

(** The URL [__proto__] gets its element like any other, but no entry of
    the registry. *)
Example proto_is_not_recorded :
  let a := sample_adapter in
  let s := state_over [CssUrlString "__proto__"] empty_document in
  let r := mount a s in
  doc_elements (document (browser (snd r)))
  = [created 0 (createLink defaultOptions) "__proto__"] /\
  linkElementsToUnmount (snd r)
  = [(created 0 (createLink defaultOptions) "__proto__", "__proto__")] /\
  linkElements (snd r) = ∅.
Proof. vm_compute. repeat split. Qed.

(** A configuration with an own [createLink] that holds [undefined]:
    [Object.assign] copies it over the default factory, and every executor
    that gets as far as the call throws. *)
Example createLink_undefined_rejects :
  let r0 := singleSpaCss sample_webpack
              (Given.mk 1%nat None None None (Some not_callable))
              (browser_with sample_urls page_with_a_css) in
  let r := mount (fst r0) (snd r0) in
  document (browser (snd r)) = page_with_a_css /\
  linkElements (snd r) !! "a.css" = Some (stylesheet_link 0 "a.css") /\
  linkElements (snd r) !! "b.css" = None /\
  promises (browser (snd r)) = [Fulfilled; Rejected] /\
  Promise_all (promises (browser (snd r))) (fst r) = Rejected.
Proof. vm_compute. repeat split. Qed.

(** A URL that turns the selector text into a selector list is answered by
    the browser's selector engine.  With an engine that reads the list as
    a browser does, [mount] adopts the preload hint that [bootstrap]
    inserted for another URL. *)
Example crafted_url_adopts_the_hint :
  let b := {| arrays := {[ 1%nat := [CssUrlString "y.css"; CssUrlString crafted_url] ]};
              document := empty_document; promises := []; listeners := [];
              microtasks := []; selector_engine := list_engine |} in
  let r0 := singleSpaCss sample_webpack only_cssUrls b in
  let s1 := snd (bootstrap (fst r0) (snd r0)) in
  let r := mount (fst r0) s1 in
  List.head (doc_elements (document (browser s1))) = Some (preload_hint 0 "y.css") /\
  stylesheet_query crafted_url s1 = Selected (Some (preload_hint 0 "y.css")) /\
  linkElements (snd r) !! crafted_url = Some (preload_hint 0 "y.css").
Proof. vm_compute. repeat split. Qed.

(** ** The statements at the sample page *)

(** What [mount] leaves on the page that holds a link for ["a.css"]: the
    link is adopted as it is, and only ["b.css"] gets a new element, which
    is not queued. *)
Example mount_on_page_with_a_css :
  let r := mount sample_adapter (sample_state page_with_a_css) in
  fst r = [0; 1]%nat /\
  promises (browser (snd r)) = [Fulfilled; Pending] /\
  linkElements (snd r) !! "a.css" = Some (stylesheet_link 0 "a.css") /\
  doc_elements (document (browser (snd r)))
  = [created 1 (createLink defaultOptions) "b.css"; stylesheet_link 0 "a.css"] /\
  linkElementsToUnmount (snd r) = [].
Proof. vm_compute. repeat split. Qed.


(** The same run by evaluation: [error] events leave the promise of
    ["a.css"] and the promise of [mount] pending; a [load] event on each
    node fulfils them. *)
Example load_events_fulfil_mount :
  let r := mount sample_adapter (sample_state empty_document) in
  let failed := snd (run sample_adapter [Dispatch ErrorEvent 0; Dispatch LoadEvent 1] (snd r)) in
  let loaded := snd (run sample_adapter [Dispatch LoadEvent 0; Dispatch LoadEvent 1] (snd r)) in
  promises (browser failed) = [Pending; Fulfilled] /\
  Promise_all (promises (browser failed)) (fst r) = Pending /\
  promises (browser loaded) = [Fulfilled; Fulfilled] /\
  Promise_all (promises (browser loaded)) (fst r) = Fulfilled.
Proof. vm_compute. repeat split. Qed.

(** [queue_holds_only_created_and_flagged] after one [mount] on the empty
    page: the queue holds the element created for ["a.css"] and nothing for
    ["b.css"]. *)
Lemma queue_holds_only_created_and_flagged_witness :
  let a := sample_adapter in
  let s := sample_state empty_document in
  let s' := snd (run a [CallMount] s) in
  let entry := (created 0 (createLink defaultOptions) "a.css", "a.css") in
  linkElementsToUnmount s' = [entry] /\
  created_by a (stylesheets a s) 0 2 entry.
Proof.
  cbv zeta. split; [reflexivity |].
  destruct (proj1 (queue_holds_only_created_and_flagged sample_adapter) [CallMount]
              (sample_state empty_document)
              (created 0 (createLink defaultOptions) "a.css", "a.css")
              (or_introl eq_refl)) as [Hold | Hnew].
  - destruct Hold.
  - exact Hnew.
Defined.

(** The end-to-end example: after [mount] the registry holds both URLs and
    the queue the element of ["a.css"] alone; after [unmount] and its
    microtask the registry holds ["b.css"] alone and the element of
    ["a.css"] is out of the document. *)
Example end_to_end :
  let a := sample_adapter in
  let s1 := snd (mount a (sample_state empty_document)) in
  let s2 := snd (drain_microtasks (snd (unmount a s1))) in
  let el_a := created 0 (createLink defaultOptions) "a.css" in
  let el_b := created 1 (createLink defaultOptions) "b.css" in
  (linkElements s1 !! "a.css" = Some el_a /\ linkElements s1 !! "b.css" = Some el_b /\
   linkElementsToUnmount s1 = [(el_a, "a.css")]) /\
  (linkElements s2 !! "a.css" = None /\ linkElements s2 !! "b.css" = Some el_b /\
   doc_elements (document (browser s2)) = [el_b] /\
   linkElementsToUnmount s2 = []).
Proof. vm_compute. repeat split. Qed.

(** [own_undefined_flag_is_kept] for an adapter whose configuration-level
    flag is the default [true]: the URL is not queued by [mount]. *)
Lemma own_undefined_flag_is_kept_witness :
  let r := singleSpaCss sample_webpack only_cssUrls
             (browser_with undefined_flag_urls empty_document) in
  let a := fst r in
  let s := snd r in
  shouldUnmount (opts a) = FlagBool true /\
  (forall c, In c (stylesheets a s) -> fst (extractUrl (opts a) c) = "c.css" ->
             c = CssUrlObject "c.css" (Some FlagUndefined)) /\
  forall e, In (e, "c.css") (linkElementsToUnmount (snd (run a [CallMount; CallMount] s))) ->
            In (e, "c.css") (linkElementsToUnmount s).
Proof.
  cbv zeta. split; [reflexivity |].
  assert (Hrecords :
    forall c,
      In c (stylesheets
              (fst (singleSpaCss sample_webpack only_cssUrls
                      (browser_with undefined_flag_urls empty_document)))
              (snd (singleSpaCss sample_webpack only_cssUrls
                      (browser_with undefined_flag_urls empty_document)))) ->
      fst (extractUrl
             (opts (fst (singleSpaCss sample_webpack only_cssUrls
                           (browser_with undefined_flag_urls empty_document)))) c) = "c.css" ->
      c = CssUrlObject "c.css" (Some FlagUndefined)).
  { intros c [<- | []] _. reflexivity. }
  split; [exact Hrecords |].
  exact (proj2 (proj2 (proj2 (own_undefined_flag_is_kept
                                (fst (singleSpaCss sample_webpack only_cssUrls
                                        (browser_with undefined_flag_urls empty_document)))
                                "c.css")))
           [CallMount; CallMount]
           (snd (singleSpaCss sample_webpack only_cssUrls
                   (browser_with undefined_flag_urls empty_document)))
           Hrecords).
Defined.

(** By evaluation: [mount] creates and inserts the element of ["c.css"]
    and queues nothing, although the configuration-level flag is [true]. *)
Example undefined_flag_is_not_queued :
  let r := singleSpaCss sample_webpack only_cssUrls
             (browser_with undefined_flag_urls empty_document) in
  let s' := snd (mount (fst r) (snd r)) in
  shouldUnmount (opts (fst r)) = FlagBool true /\
  doc_elements (document (browser s')) = [created 0 (createLink defaultOptions) "c.css"] /\
  linkElementsToUnmount s' = [].
Proof. vm_compute. repeat split. Qed.

(** * Further properties of the lifecycle functions *)

(** ** Bootstrap *)

(** What a selector that was read selects is an element of the document,
    and such a selector does not throw. *)
Lemma select_readable (t : Template) (url : string) (b : Browser) :
  readable url ->
  exists found,
    select t url b = Selected found /\
    forall el, found = Some el -> In el (doc_elements (document b)).
Proof.
  intros (value & Hread). unfold select. rewrite Hread.
  eexists. split; [reflexivity |].
  intros el Hfind. apply (find_some _ _ Hfind).
Qed.

(** [bootstrap] touches the document and the promise table, nothing else. *)
Lemma bootstrap_frame (a : Adapter) (s : State) :
  arrays (browser (snd (bootstrap a s))) = arrays (browser s) /\
  listeners (browser (snd (bootstrap a s))) = listeners (browser s) /\
  microtasks (browser (snd (bootstrap a s))) = microtasks (browser s) /\
  selector_engine (browser (snd (bootstrap a s))) = selector_engine (browser s) /\
  linkElements (snd (bootstrap a s)) = linkElements s /\
  linkElementsToUnmount (snd (bootstrap a s)) = linkElementsToUnmount s.
Proof.
  rewrite bootstrap_unfold.
  apply (mapM_preorder _
           (fun s1 s2 =>
              arrays (browser s2) = arrays (browser s1) /\
              listeners (browser s2) = listeners (browser s1) /\
              microtasks (browser s2) = microtasks (browser s1) /\
              selector_engine (browser s2) = selector_engine (browser s1) /\
              linkElements s2 = linkElements s1 /\
              linkElementsToUnmount s2 = linkElementsToUnmount s1)).
  - intros s1. repeat split.
  - intros s1 s2 s3 (A1 & B1 & C1 & D1 & E1 & F1) (A2 & B2 & C2 & D2 & E2 & F2).
    repeat split; congruence.
  - intros c s1 _.
    destruct (bootstrap_step_cases a c s1) as [(el & _ & ->) | [(_ & ->) | (_ & ->)]];
      repeat split.
Qed.

Lemma bootstrap_keeps_stylesheets (a : Adapter) (s : State) :
  stylesheets a (snd (bootstrap a s)) = stylesheets a s.
Proof.
  unfold stylesheets. destruct (bootstrap_frame a s) as (-> & _). reflexivity.
Qed.

(** The promise of an executor of [bootstrap] is settled when the executor
    is done: rejected if [querySelector] threw, fulfilled if not. *)
Lemma bootstrap_step_settles (a : Adapter) (c : CssUrl) (s : State) :
  let p := length (promises (browser s)) in
  let table := promises (browser (snd (new_Promise (bootstrap_executor a c) s))) in
  (preload_query (fst (extractUrl (opts a) c)) s = SyntaxError /\ table !! p = Some Rejected) \/
  (preload_query (fst (extractUrl (opts a) c)) s <> SyntaxError /\ table !! p = Some Fulfilled).
Proof.
  cbn zeta.
  destruct (bootstrap_step_cases a c s) as [(el & Hq & ->) | [(Hq & ->) | (Hq & ->)]]; cbn.
  - right. split; [rewrite Hq; discriminate | apply settle_new].
  - right. split; [rewrite Hq; discriminate | apply settle_new].
  - left. split; [exact Hq |].
    rewrite lookup_app_r by lia. rewrite Nat.sub_diag. reflexivity.
Qed.

Lemma bootstrap_promises_settled (a : Adapter) (s : State) :
  Forall (fun p => promises (browser (snd (bootstrap a s))) !! p = Some Fulfilled \/
                   promises (browser (snd (bootstrap a s))) !! p = Some Rejected)
    (fst (bootstrap a s)).
Proof.
  rewrite bootstrap_unfold.
  refine (Forall_impl _ _ _ (proj2 (mapM_results _ (fun _ => True)
           (fun p s1 => p < length (promises (browser s1)) /\
                        (promises (browser s1) !! p = Some Fulfilled \/
                         promises (browser s1) !! p = Some Rejected))
           (stylesheets a s) _ _ s I)) _).
  3: { cbv beta. tauto. }
  - intros c s1 _ _. split; [exact I |].
    rewrite bootstrap_step_allocates.
    destruct (bootstrap_step_promises a c s1) as [Hlen _].
    split; [lia |].
    destruct (bootstrap_step_settles a c s1) as [[_ H] | [_ H]]; auto.
  - intros c p s1 _ _ [Hlt Hp].
    destruct (bootstrap_step_promises a c s1) as [Hlen Hold].
    split; [lia |]. rewrite (Hold p Hlt). exact Hp.
Qed.

Lemma bootstrap_promises_fulfilled (a : Adapter) (s : State) :
  (forall c, In c (stylesheets a s) -> readable (fst (extractUrl (opts a) c))) ->
  Forall (fun p => promises (browser (snd (bootstrap a s))) !! p = Some Fulfilled)
    (fst (bootstrap a s)).
Proof.
  intros Hread. rewrite bootstrap_unfold.
  refine (Forall_impl _ _ _ (proj2 (mapM_results _ (fun _ => True)
           (fun p s1 => p < length (promises (browser s1)) /\
                        promises (browser s1) !! p = Some Fulfilled)
           (stylesheets a s) _ _ s I)) _).
  3: { cbv beta. tauto. }
  - intros c s1 Hc _. split; [exact I |].
    rewrite bootstrap_step_allocates.
    destruct (bootstrap_step_promises a c s1) as [Hlen _].
    split; [lia |].
    destruct (bootstrap_step_settles a c s1) as [[Hq _] | [_ H]]; [| exact H].
    destruct (select_readable preload_template _ (browser s1) (Hread c Hc)) as (found & Hf & _).
    unfold preload_query in Hq. rewrite Hf in Hq. discriminate.
  - intros c p s1 _ _ [Hlt Hp].
    destruct (bootstrap_step_promises a c s1) as [Hlen Hold].
    split; [lia |]. rewrite (Hold p Hlt). exact Hp.
Qed.

(** X1: [bootstrap] does not wait for the preloads.  It returns one promise
    for each reference of the array, and every one of them is settled when
    the call returns: fulfilled, or rejected if [querySelector] threw in
    its executor.  If the selector text of every URL of the array is a
    selector of the shape that was meant, all of them are fulfilled, and
    so is their [Promise.all].  The registry, the pending-unmount queue,
    the listeners, the microtask queue and the arrays are as they were. *)
Theorem bootstrap_resolves_at_once (a : Adapter) (s : State) :
  let r := bootstrap a s in
  length (fst r) = length (stylesheets a s) /\
  Forall (fun p => promises (browser (snd r)) !! p = Some Fulfilled \/
                   promises (browser (snd r)) !! p = Some Rejected) (fst r) /\
  ((forall c, In c (stylesheets a s) -> readable (fst (extractUrl (opts a) c))) ->
   Forall (fun p => promises (browser (snd r)) !! p = Some Fulfilled) (fst r) /\
   Promise_all (promises (browser (snd r))) (fst r) = Fulfilled) /\
  arrays (browser (snd r)) = arrays (browser s) /\
  listeners (browser (snd r)) = listeners (browser s) /\
  microtasks (browser (snd r)) = microtasks (browser s) /\
  linkElements (snd r) = linkElements s /\
  linkElementsToUnmount (snd r) = linkElementsToUnmount s.
Proof.
  cbn zeta.
  split; [rewrite bootstrap_unfold; apply mapM_length |].
  split; [apply bootstrap_promises_settled |].
  split.
  - intros Hread. pose proof (bootstrap_promises_fulfilled a s Hread) as H.
    split; [exact H | apply Promise_all_fulfilled, H].
  - destruct (bootstrap_frame a s) as (A & B & C & _ & D & E). auto.
Qed.

Lemma matches_preload_hint (n : nat) (url : string) :
  matches (preload_selector url) (preload_hint n url) = true.
Proof.
  unfold matches, attribute_test, attribute_value_eqb. cbn.
  rewrite String.eqb_refl. reflexivity.
Qed.

Lemma preload_hint_is_no_stylesheet (n : nat) (url u : string) :
  matches (stylesheet_selector u) (preload_hint n url) = false.
Proof. reflexivity. Qed.

(** What the preload selector asks of an element. *)
Lemma matches_preload_attributes (u : string) (e : Element) :
  matches (preload_selector u) e = true ->
  tagName e = "link" /\
  (exists rel, getAttribute "rel" (attributes e) = Some rel /\ lowercase rel = "preload") /\
  getAttribute "as" (attributes e) = Some "style" /\
  getAttribute "href" (attributes e) = Some u.
Proof.
  unfold matches, attribute_test, attribute_value_eqb. cbn. intros H.
  repeat (apply andb_true_iff in H; destruct H as [? H]).
  destruct (getAttribute "rel" (attributes e)) as [rel |]; [| discriminate].
  destruct (getAttribute "as" (attributes e)) as [v_as |]; [| discriminate].
  destruct (getAttribute "href" (attributes e)) as [v |]; [| discriminate].
  repeat match goal with
         | Hv : (_ =? _)%string = true |- _ => apply String.eqb_eq in Hv
         end.
  subst. split; [assumption |].
  split; [exists rel; split; [reflexivity | assumption] | split; reflexivity].
Qed.

Lemma matches_preload_href (u : string) (e : Element) :
  matches (preload_selector u) e = true -> getAttribute "href" (attributes e) = Some u.
Proof. intros H. apply matches_preload_attributes in H. tauto. Qed.


Lemma find_append_keeps {A} (p : A -> bool) (hd bd : list A) (x : A) :
  List.find p (hd ++ bd) <> None -> List.find p ((hd ++ [x]) ++ bd) <> None.
Proof.
  rewrite !find_app. destruct (List.find p hd); [discriminate |].
  cbn. destruct (p x); [discriminate | auto].
Qed.

Lemma find_append_hit {A} (p : A -> bool) (hd bd : list A) (x : A) :
  p x = true -> List.find p ((hd ++ [x]) ++ bd) <> None.
Proof.
  intros Hx. rewrite !find_app. destruct (List.find p hd); [discriminate |].
  cbn. rewrite Hx. discriminate.
Qed.

Lemma find_skip_added {A} (p : A -> bool) (hd bd added : list A) :
  Forall (fun x => p x = false) added ->
  List.find p ((hd ++ added) ++ bd) = List.find p (hd ++ bd).
Proof.
  intros Hadded. rewrite !find_app.
  destruct (List.find p hd); [reflexivity |].
  assert (Hnone : List.find p added = None).
  { induction Hadded as [| x rest Hx _ IH]; [reflexivity |]. cbn. rewrite Hx. exact IH. }
  rewrite Hnone. reflexivity.
Qed.

Lemma find_none_after_added {A} (p : A -> bool) (hd bd added : list A) :
  List.find p ((hd ++ added) ++ bd) = None ->
  List.find p (hd ++ bd) = None /\ forall x, In x added -> p x = false.
Proof.
  intros Hnone. split.
  - rewrite !find_app in *.
    destruct (List.find p hd); [discriminate |].
    destruct (List.find p added); [discriminate | exact Hnone].
  - intros x Hx. apply (find_none _ _ Hnone). rewrite !in_app_iff. auto.
Qed.

(** An element that is found stays found through an executor of
    [bootstrap]. *)
Lemma bootstrap_step_keeps_found (a : Adapter) (c : CssUrl) (sel : Selector) (s : State) :
  query sel s <> None ->
  query sel (snd (new_Promise (bootstrap_executor a c) s)) <> None.
Proof.
  intros Hq.
  destruct (bootstrap_step_cases a c s) as [(el & _ & ->) | [(_ & ->) | (_ & ->)]];
    [exact Hq | | exact Hq].
  unfold query, doc_elements in *. cbn. apply find_append_keeps. exact Hq.
Qed.

Lemma bootstrap_step_hints (a : Adapter) (c : CssUrl) (s : State) :
  plain (fst (extractUrl (opts a) c)) ->
  query (preload_selector (fst (extractUrl (opts a) c)))
    (snd (new_Promise (bootstrap_executor a c) s)) <> None.
Proof.
  intros Hplain. pose proof (preload_query_plain _ s Hplain) as Hsel.
  destruct (bootstrap_step_cases a c s) as [(el & Hq & ->) | [(_ & ->) | (Hq & _)]].
  - rewrite Hq in Hsel. injection Hsel as Hsel.
    unfold query in *. cbn. rewrite <- Hsel. discriminate.
  - unfold query, doc_elements. cbn. apply find_append_hit, matches_preload_hint.
  - rewrite Hq in Hsel. discriminate.
Qed.

Lemma bootstrap_hints_present (a : Adapter) (s : State) (c : CssUrl) :
  In c (stylesheets a s) ->
  plain (fst (extractUrl (opts a) c)) ->
  query (preload_selector (fst (extractUrl (opts a) c))) (snd (bootstrap a s)) <> None.
Proof.
  intros Hc Hplain. rewrite bootstrap_unfold.
  apply in_split in Hc. destruct Hc as (l1 & l2 & ->).
  rewrite mapM_app, mapM_cons. cbn [snd].
  apply (mapM_invariant _
           (fun s1 => query (preload_selector (fst (extractUrl (opts a) c))) s1 <> None)).
  - intros c' s1 _. apply bootstrap_step_keeps_found.
  - apply bootstrap_step_hints, Hplain.
Qed.


(** Where every call of [querySelector] finds an element or throws,
    [bootstrap] leaves the document as it is. *)
Lemma bootstrap_document_unchanged (a : Adapter) (s : State) :
  (forall c, In c (stylesheets a s) ->
             preload_query (fst (extractUrl (opts a) c)) s <> Selected None) ->
  document (browser (snd (bootstrap a s))) = document (browser s).
Proof.
  intros Hall. rewrite bootstrap_unfold.
  apply (mapM_invariant _
           (fun s1 => document (browser s1) = document (browser s) /\
                      selector_engine (browser s1) = selector_engine (browser s)));
    [| split; reflexivity].
  intros c s1 Hc (Hdoc & Heng).
  assert (Hq : preload_query (fst (extractUrl (opts a) c)) s1
               = preload_query (fst (extractUrl (opts a) c)) s)
    by (apply select_document; assumption).
  destruct (bootstrap_step_cases a c s1) as [(el & _ & ->) | [(Hnone & _) | (_ & ->)]].
  - split; assumption.
  - exfalso. apply (Hall c Hc). rewrite <- Hq. exact Hnone.
  - split; assumption.
Qed.

(** X3: [bootstrap] inserts a hint only where [querySelector] returns
    [null].  In a document in which no call of it does, [bootstrap] leaves
    the document as it is -- no node is created, none is inserted.  And if
    the selector text takes every URL of the array as it is, calling
    [bootstrap] again after it has run leaves the document as the first
    call left it. *)
Theorem bootstrap_inserts_hints_once (a : Adapter) (s : State) :
  ((forall c, In c (stylesheets a s) ->
              preload_query (fst (extractUrl (opts a) c)) s <> Selected None) ->
   document (browser (snd (bootstrap a s))) = document (browser s)) /\
  ((forall c, In c (stylesheets a s) -> plain (fst (extractUrl (opts a) c))) ->
   document (browser (snd (bootstrap a (snd (bootstrap a s)))))
   = document (browser (snd (bootstrap a s)))).
Proof.
  split; [apply bootstrap_document_unchanged |].
  intros Hplain. apply bootstrap_document_unchanged.
  rewrite bootstrap_keeps_stylesheets. intros c Hc.
  rewrite (preload_query_plain _ _ (Hplain c Hc)).
  pose proof (bootstrap_hints_present a s c Hc (Hplain c Hc)) as Hq.
  intros Heq. injection Heq as Heq. contradiction.
Qed.

(** What [bootstrap] adds to the document: preload hints for URLs of the
    array, at the end of [head]. *)
Lemma bootstrap_appends_hints (a : Adapter) (s : State) :
  doc_body (document (browser (snd (bootstrap a s)))) = doc_body (document (browser s)) /\
  exists added,
    doc_head (document (browser (snd (bootstrap a s))))
    = doc_head (document (browser s)) ++ added /\
    Forall (fun e => exists n c, In c (stylesheets a s) /\
                                 e = preload_hint n (fst (extractUrl (opts a) c))) added.
Proof.
  rewrite bootstrap_unfold.
  apply (mapM_invariant _
           (fun s1 =>
              doc_body (document (browser s1)) = doc_body (document (browser s)) /\
              exists added,
                doc_head (document (browser s1)) = doc_head (document (browser s)) ++ added /\
                Forall (fun e => exists n c, In c (stylesheets a s) /\
                                             e = preload_hint n (fst (extractUrl (opts a) c)))
                  added)).
  - intros c s1 Hc (Hb & added & Hh & Hadded).
    destruct (bootstrap_step_cases a c s1) as [(el & _ & ->) | [(_ & ->) | (_ & ->)]]; cbn.
    + split; [exact Hb | exists added; auto].
    + split; [exact Hb |].
      exists (added ++ [preload_hint (doc_next (document (browser s1)))
                          (fst (extractUrl (opts a) c))]).
      rewrite Hh, <- app_assoc. split; [reflexivity |].
      apply Forall_app. split; [exact Hadded |]. apply Forall_singleton. eauto.
    + split; [exact Hb | exists added; auto].
  - split; [reflexivity |]. exists []. rewrite app_nil_r. auto.
Qed.

(** X4: [bootstrap] adds nothing to the document but preload hints for URLs
    of the array, at the end of [head], and a preload hint is no stylesheet
    link.  So for every URL whose selector text is one that is read here --
    the selector that was meant, or no selector at all -- the call of
    [querySelector] in [mount] gives after [bootstrap] what it gave
    before: such a URL never makes [mount] adopt a hint in place of the
    stylesheet.  (A URL that turns the text into another selector can: see
    [crafted_url_adopts_the_hint].) *)
Theorem bootstrap_hints_are_not_adopted (a : Adapter) (s : State) :
  let s' := snd (bootstrap a s) in
  doc_body (document (browser s')) = doc_body (document (browser s)) /\
  (exists added,
     doc_head (document (browser s')) = doc_head (document (browser s)) ++ added /\
     Forall (fun e => exists n c, In c (stylesheets a s) /\
                                  e = preload_hint n (fst (extractUrl (opts a) c))) added) /\
  forall url, read_interpolated url <> Unread ->
              stylesheet_query url s' = stylesheet_query url s.
Proof.
  cbn zeta. destruct (bootstrap_appends_hints a s) as (Hb & added & Hh & Hadded).
  split; [exact Hb | split; [exists added; auto |]].
  intros url Hread. unfold stylesheet_query, select.
  destruct (read_interpolated url) as [value | |]; [| reflexivity | contradiction].
  f_equal. unfold doc_elements. rewrite Hb, Hh.
  apply find_skip_added.
  eapply Forall_impl; [exact Hadded |]. cbn.
  intros e (n & c & _ & ->). apply preload_hint_is_no_stylesheet.
Qed.

(** ** Mount *)





(** X6: what [mount] never does.  It leaves the arrays, the microtask queue
    and the part of the tree outside [head] as they are; it removes no
    child of [head] and adds only at its end; it removes no entry of the
    pending-unmount queue and no listener, and the listeners it adds are
    [load] listeners; it settles no promise that existed before the call;
    and it changes the registry only under URLs of the array. *)
Theorem mount_only_adds (a : Adapter) (s : State) :
  let s' := snd (mount a s) in
  arrays (browser s') = arrays (browser s) /\
  microtasks (browser s') = microtasks (browser s) /\
  doc_body (document (browser s')) = doc_body (document (browser s)) /\
  (exists added, doc_head (document (browser s')) = doc_head (document (browser s)) ++ added) /\
  (exists new, linkElementsToUnmount s' = linkElementsToUnmount s ++ new) /\
  (exists ls, listeners (browser s') = listeners (browser s) ++ ls /\
              Forall (fun l => lis_type l = LoadEvent) ls) /\
  (forall p, p < length (promises (browser s)) ->
             promises (browser s') !! p = promises (browser s) !! p) /\
  (forall u, (forall c, In c (stylesheets a s) -> fst (extractUrl (opts a) c) <> u) ->
             linkElements s' !! u = linkElements s !! u).
Proof.
  cbn zeta. rewrite mount_unfold.
  pose (I := fun s1 : State =>
       arrays (browser s1) = arrays (browser s) /\
       microtasks (browser s1) = microtasks (browser s) /\
       doc_body (document (browser s1)) = doc_body (document (browser s)) /\
       (exists added,
          doc_head (document (browser s1)) = doc_head (document (browser s)) ++ added) /\
       (exists new, linkElementsToUnmount s1 = linkElementsToUnmount s ++ new) /\
       (exists ls, listeners (browser s1) = listeners (browser s) ++ ls /\
                   Forall (fun l => lis_type l = LoadEvent) ls) /\
       (length (promises (browser s)) <= length (promises (browser s1)) /\
        forall p, p < length (promises (browser s)) ->
                  promises (browser s1) !! p = promises (browser s) !! p) /\
       (forall u, (forall c, In c (stylesheets a s) -> fst (extractUrl (opts a) c) <> u) ->
                  linkElements s1 !! u = linkElements s !! u)).
  assert (Hinv : I (snd (mapM (fun c => new_Promise (mount_executor a c))
                           (stylesheets a s) s))).
  { apply (mapM_invariant _ I); subst I; cbv beta.
    2: { repeat split; auto; try (exists []; rewrite app_nil_r; auto). }
    intros c s1 Hc (A & B & C & (added & D) & (new & E) & (ls & F & Fl) & (Gl & G) & H).
    assert (Gstep : length (promises (browser s))
                    <= length (promises (browser (snd (new_Promise (mount_executor a c) s1)))) /\
                    forall p, p < length (promises (browser s)) ->
                      promises (browser (snd (new_Promise (mount_executor a c) s1))) !! p
                      = promises (browser s) !! p).
    { destruct (mount_step_allocates a c s1) as [_ ->]. split; [lia |].
      intros p Hp. rewrite mount_step_old_promises by lia. apply G, Hp. }
    destruct (mount_step_cases a c s1) as [(el & _ & Heq) | [(_ & _ & Heq) | (_ & Heq)]];
      rewrite Heq in *; clear Heq; cbn.
    + split; [exact A | split; [exact B | split; [exact C |]]].
      split; [exists added; exact D | split; [exists new; exact E |]].
      split; [exists ls; auto |]. split; [exact Gstep |].
      intros u Hu. rewrite lookup_assign_ne by (apply Hu, Hc). apply H, Hu.
    + split; [exact A | split; [exact B | split; [exact C |]]].
      split; [eexists; rewrite D, <- app_assoc; reflexivity |].
      split.
      { destruct (truthy _); [eexists; rewrite E, <- app_assoc; reflexivity
                             | exists new; exact E]. }
      split.
      { eexists. rewrite F, <- app_assoc. split; [reflexivity |].
        apply Forall_app. split; [exact Fl | apply Forall_singleton; reflexivity]. }
      split; [exact Gstep |].
      intros u Hu. rewrite lookup_assign_ne by (apply Hu, Hc). apply H, Hu.
    + split; [exact A | split; [exact B | split; [exact C |]]].
      split; [exists added; exact D | split; [exists new; exact E |]].
      split; [exists ls; auto |]. split; [exact Gstep | exact H]. }
  subst I. cbv beta in Hinv.
  destruct Hinv as (A & B & C & D & E & F & (_ & G) & H).
  repeat split; auto.
Qed.









(** The hypothesis on the factory matters: a factory that changes the URL
    it is given builds links that the selector of [mount] does not find,
    and every call inserts them again. *)
Example mount_with_versioned_links_is_not_idempotent :
  let r := singleSpaCss sample_webpack
             (Given.mk 1%nat None None None (Some versioned_link))
             (browser_with [CssUrlString "a.css"] empty_document) in
  let s1 := snd (mount (fst r) (snd r)) in
  let s2 := snd (mount (fst r) s1) in
  length (doc_elements (document (browser s1))) = 1%nat /\
  length (doc_elements (document (browser s2))) = 2%nat /\
  length (linkElementsToUnmount s2) = 2%nat.
Proof. vm_compute. repeat split. Qed.

(** ** Unmount and its microtasks *)

Lemma drain_eq ar d ps ls js se reg q :
  snd (drain_microtasks (mkState (mkBrowser ar d ps ls js se) reg q))
  = snd (mapM (fun _ : Job => run_microtask) js (mkState (mkBrowser ar d ps ls js se) reg q)).
Proof.
  unfold drain_microtasks, bind, gets. cbn [browser microtasks].
  destruct (mapM _ _ _) as [ys s']. reflexivity.
Qed.

Lemma run_jobs_cons (j : Job) (rest : list Job) ar d ps ls se reg q :
  snd (mapM (fun _ : Job => run_microtask) (j :: rest)
         (mkState (mkBrowser ar d ps ls (j :: rest) se) reg q))
  = snd (mapM (fun _ : Job => run_microtask) rest
           (mkState
              (mkBrowser ar
                 (if existsb (same_node (job_linkEl j)) (doc_elements d)
                  then {| doc_head :=
                            List.filter (fun x => negb (same_node (job_linkEl j) x)) (doc_head d);
                          doc_body :=
                            List.filter (fun x => negb (same_node (job_linkEl j) x)) (doc_body d);
                          doc_next := doc_next d |}
                  else d)
                 (settle (job_promise j) ps) ls rest se)
              (delete (job_url j) reg) q)).
Proof.
  rewrite mapM_cons. cbn [snd].
  assert (Hstep : run_microtask (mkState (mkBrowser ar d ps ls (j :: rest) se) reg q)
                  = run_job j (mkState (mkBrowser ar d ps ls rest se) reg q)) by reflexivity.
  rewrite Hstep, run_job_eq. reflexivity.
Qed.

(** The registry after the jobs: the URLs of the jobs are deleted, every
    other entry is kept. *)
Lemma run_jobs_registry (js : list Job) :
  forall ar d ps ls se reg q u,
    (forall k, In k js -> job_url k <> u) ->
    linkElements (snd (mapM (fun _ : Job => run_microtask) js
                         (mkState (mkBrowser ar d ps ls js se) reg q))) !! u
    = reg !! u.
Proof.
  induction js as [| j rest IH]; intros ar d ps ls se reg q u Hu; [reflexivity |].
  rewrite run_jobs_cons, IH by (intros k Hk; apply Hu; right; exact Hk).
  apply lookup_delete_ne. apply Hu. left. reflexivity.
Qed.

(** The promise table after the jobs: the promise of every job that was
    pending is fulfilled, and what was fulfilled stays so. *)
Lemma run_jobs_promises (js : list Job) :
  forall ar d ps ls se reg q,
    let s' := snd (mapM (fun _ : Job => run_microtask) js
                     (mkState (mkBrowser ar d ps ls js se) reg q)) in
    (forall p, ps !! p = Some Fulfilled -> promises (browser s') !! p = Some Fulfilled) /\
    (forall k, In k js ->
       ps !! job_promise k = Some Pending \/ ps !! job_promise k = Some Fulfilled ->
       promises (browser s') !! job_promise k = Some Fulfilled).
Proof.
  induction js as [| j rest IH]; intros ar d ps ls se reg q; cbn zeta.
  - split; [auto | intros k []].
  - rewrite run_jobs_cons.
    set (d1 := if existsb _ _ then _ else d).
    destruct (IH ar d1 (settle (job_promise j) ps) ls se (delete (job_url j) reg) q)
      as [Hkeep Hjobs].
    split.
    + intros p Hp. apply Hkeep, settle_keeps_fulfilled, Hp.
    + intros k [<- | Hk] Hstate.
      * apply Hkeep, settle_fulfils, Hstate.
      * apply Hjobs; [exact Hk |]. apply settle_pending_or_fulfilled, Hstate.
Qed.

Lemma lookup_new_pending (ps : list PromiseState) (n p : nat) :
  In p (seq (length ps) n) -> (ps ++ replicate n Pending) !! p = Some Pending.
Proof.
  intros Hin. apply in_seq in Hin.
  rewrite lookup_app_r by lia. apply lookup_replicate_2. lia.
Qed.

(** X9: the promises [unmount] returns, one for each queued pair, are
    pending when it returns: the removals are still to be done.  When the
    microtasks have run, every one of them is fulfilled, and so is their
    [Promise.all]. *)
Theorem unmount_resolves_after_its_microtasks (a : Adapter) (s : State) :
  let r := unmount a s in
  let s' := snd (drain_microtasks (snd r)) in
  length (fst r) = length (linkElementsToUnmount s) /\
  Forall (fun p => promises (browser (snd r)) !! p = Some Pending) (fst r) /\
  Forall (fun p => promises (browser s') !! p = Some Fulfilled) (fst r) /\
  Promise_all (promises (browser s')) (fst r) = Fulfilled.
Proof.
  destruct s as [[ar d ps ls ms se] reg q].
  destruct (unmount_eq a ar d ps ls ms se reg q) as (new & Heq & Hpairs & Hids).
  cbn zeta. rewrite Heq. cbn [fst snd]. rewrite drain_eq.
  assert (Hpending : Forall (fun p => (ps ++ replicate (length q) Pending) !! p = Some Pending)
                       (map job_promise new)).
  { rewrite Hids. apply Forall_forall. intros p Hp.
    apply lookup_new_pending. apply list_elem_of_In. exact Hp. }
  destruct (run_jobs_promises (ms ++ new) ar d (ps ++ replicate (length q) Pending) ls se reg [])
    as [_ Hjobs]. cbn zeta in Hjobs.
  assert (Hdone : Forall (fun p =>
                    promises (browser
                      (snd (mapM (fun _ : Job => run_microtask) (ms ++ new)
                              (mkState (mkBrowser ar d (ps ++ replicate (length q) Pending) ls
                                          (ms ++ new) se) reg [])))) !! p = Some Fulfilled)
                    (map job_promise new)).
  { apply Forall_forall. intros p Hp. apply list_elem_of_In, in_map_iff in Hp.
    destruct Hp as (k & <- & Hk). apply Hjobs; [apply in_or_app; right; exact Hk |].
    left. rewrite Forall_forall in Hpending. apply Hpending.
    apply list_elem_of_In, in_map. exact Hk. }
  split; [rewrite Hids, length_seq; reflexivity |].
  split; [exact Hpending | split; [exact Hdone |]].
  apply Promise_all_fulfilled. exact Hdone.
Qed.

Lemma filter_all_true {A} (p : A -> bool) (l : list A) :
  (forall x, In x l -> p x = true) -> List.filter p l = l.
Proof.
  induction l as [| x rest IH]; intros H; [reflexivity |].
  cbn. rewrite (H x (or_introl eq_refl)), IH; [reflexivity |].
  intros y Hy. apply H. right. exact Hy.
Qed.

Lemma filter_all_false {A} (p : A -> bool) (l : list A) :
  (forall x, In x l -> p x = false) -> List.filter p l = [].
Proof.
  induction l as [| x rest IH]; intros H; [reflexivity |].
  cbn. rewrite (H x (or_introl eq_refl)), IH; [reflexivity |].
  intros y Hy. apply H. right. exact Hy.
Qed.

(** The jobs of the state after [unmount], from the queue and the jobs that
    were pending. *)
Lemma job_of_unmount (ms new : list Job) (q : list (Element * string)) (k : Job) :
  map (fun j => (job_linkEl j, job_url j)) new = q ->
  In k (ms ++ new) ->
  In k ms \/ In (job_linkEl k, job_url k) q.
Proof.
  intros Hpairs Hk. apply in_app_or in Hk. destruct Hk as [Hk | Hk]; [left; exact Hk |].
  right. rewrite <- Hpairs. apply (in_map (fun j => (job_linkEl j, job_url j))). exact Hk.
Qed.

(** X10: [unmount] removes what it queued and nothing else.  When its
    microtasks have run, the registry holds what it held under every URL
    that is neither queued nor the URL of a job that was already pending,
    and every node of the document that is neither queued nor the node of
    such a job is still in the document: an adopted element, and an element
    created for a reference whose flag is falsy, survive [unmount]. *)
Theorem unmount_keeps_what_it_did_not_queue (a : Adapter) (s : State) :
  let s' := snd (drain_microtasks (snd (unmount a s))) in
  (forall u,
     (forall e u', In (e, u') (linkElementsToUnmount s) -> u' <> u) ->
     (forall k, In k (microtasks (browser s)) -> job_url k <> u) ->
     linkElements s' !! u = linkElements s !! u) /\
  (forall x,
     In x (doc_elements (document (browser s))) ->
     (forall e u', In (e, u') (linkElementsToUnmount s) -> same_node e x = false) ->
     (forall k, In k (microtasks (browser s)) -> same_node (job_linkEl k) x = false) ->
     In x (doc_elements (document (browser s')))).
Proof.
  destruct s as [[ar d ps ls ms se] reg q].
  destruct (unmount_eq a ar d ps ls ms se reg q) as (new & Heq & Hpairs & Hids).
  cbn zeta. rewrite Heq. cbn [fst snd browser linkElements linkElementsToUnmount
                               microtasks document].
  rewrite drain_eq. split.
  - intros u Hq Hms. apply run_jobs_registry.
    intros k Hk. destruct (job_of_unmount ms new q k Hpairs Hk) as [Hold | Hnew].
    + apply Hms, Hold.
    + apply (Hq _ _ Hnew).
  - intros x Hx Hq Hms.
    destruct (run_jobs (ms ++ new) ar d (ps ++ replicate (length q) Pending) ls se reg [])
      as (_ & _ & Hd & _). cbn zeta in Hd. rewrite Hd.
    unfold doc_elements in *. cbn [doc_head doc_body].
    assert (Hkeep : negb (existsb (fun k => same_node (job_linkEl k) x) (ms ++ new)) = true).
    { apply negb_true_iff, existsb_false_iff. intros k Hk.
      destruct (job_of_unmount ms new q k Hpairs Hk) as [Hold | Hnew].
      - apply Hms, Hold.
      - apply (Hq _ _ Hnew). }
    rewrite in_app_iff in *. rewrite !filter_In. tauto.
Qed.

(** X11: [unmount] tolerates elements that are already out of the document
    (the test [if (linkEl.parentNode)]).  If no queued element and no
    element of a pending job is in the document, then [unmount] and its
    microtasks leave the document as it is, and still empty the queue,
    delete the queued URLs from the registry and fulfil the promise of
    [unmount]. *)
Theorem unmount_tolerates_detached_elements (a : Adapter) (s : State) :
  (forall e u, In (e, u) (linkElementsToUnmount s) ->
               existsb (same_node e) (doc_elements (document (browser s))) = false) ->
  (forall k, In k (microtasks (browser s)) ->
             existsb (same_node (job_linkEl k)) (doc_elements (document (browser s))) = false) ->
  let r := unmount a s in
  let s' := snd (drain_microtasks (snd r)) in
  document (browser s') = document (browser s) /\
  linkElementsToUnmount s' = [] /\
  microtasks (browser s') = [] /\
  (forall e u, In (e, u) (linkElementsToUnmount s) -> linkElements s' !! u = None) /\
  Promise_all (promises (browser s')) (fst r) = Fulfilled.
Proof.
  destruct s as [[ar d ps ls ms se] reg q]. cbn [browser linkElementsToUnmount microtasks document].
  intros Hq Hms.
  destruct (unmount_eq a ar d ps ls ms se reg q) as (new & Heq & Hpairs & Hids).
  cbn zeta. rewrite Heq. cbn [fst snd]. rewrite drain_eq.
  destruct (run_jobs (ms ++ new) ar d (ps ++ replicate (length q) Pending) ls se reg [])
    as (Hempty & Hqueue & Hd & _ & _ & Hjobs). cbn zeta in *.
  assert (Hdetached : forall k x, In k (ms ++ new) -> In x (doc_elements d) ->
                                  same_node (job_linkEl k) x = false).
  { intros k x Hk Hx.
    assert (Hnone : existsb (same_node (job_linkEl k)) (doc_elements d) = false).
    { destruct (job_of_unmount ms new q k Hpairs Hk) as [Hold | Hnew].
      - apply Hms, Hold.
      - apply (Hq _ _ Hnew). }
    rewrite existsb_false_iff in Hnone. apply Hnone, Hx. }
  assert (Hall : forall x, In x (doc_elements d) ->
            negb (existsb (fun k => same_node (job_linkEl k) x) (ms ++ new)) = true).
  { intros x Hx. apply negb_true_iff, existsb_false_iff.
    intros k Hk. apply Hdetached; assumption. }
  split; [| split; [exact Hqueue | split; [exact Hempty | split]]].
  - rewrite Hd. unfold doc_elements in Hall.
    rewrite !filter_all_true by (intros x Hx; apply Hall, in_or_app; auto).
    destruct d. reflexivity.
  - intros e u Hin. rewrite <- Hpairs in Hin. apply in_map_iff in Hin.
    destruct Hin as (k & Hk & Hin). injection Hk as <- <-.
    apply Hjobs. apply in_or_app. right. exact Hin.
  - destruct (run_jobs_promises (ms ++ new) ar d (ps ++ replicate (length q) Pending)
                ls se reg []) as [_ Hdone]. cbn zeta in Hdone.
    apply Promise_all_fulfilled, Forall_forall. intros p Hp.
    apply list_elem_of_In, in_map_iff in Hp. destruct Hp as (k & <- & Hk).
    apply Hdone; [apply in_or_app; right; exact Hk |].
    left. apply lookup_new_pending. rewrite <- Hids. apply in_map. exact Hk.
Qed.

(** ** A whole cycle *)

(** When every reference of the array has a truthy flag, [mount] queues
    exactly the elements it appends to [head], and they are new nodes. *)
Lemma mount_queues_what_it_creates (a : Adapter) (s : State) :
  (forall c, In c (stylesheets a s) -> truthy (snd (extractUrl (opts a) c)) = true) ->
  let s1 := snd (mount a s) in
  doc_body (document (browser s1)) = doc_body (document (browser s)) /\
  microtasks (browser s1) = microtasks (browser s) /\
  doc_next (document (browser s)) <= doc_next (document (browser s1)) /\
  exists new,
    linkElementsToUnmount s1 = linkElementsToUnmount s ++ new /\
    doc_head (document (browser s1)) = doc_head (document (browser s)) ++ map fst new /\
    Forall (fun entry => doc_next (document (browser s)) <= node_id (fst entry)) new.
Proof.
  intros Hflags. cbn zeta. rewrite mount_unfold.
  apply (mapM_invariant _
    (fun s1 =>
       doc_body (document (browser s1)) = doc_body (document (browser s)) /\
       microtasks (browser s1) = microtasks (browser s) /\
       doc_next (document (browser s)) <= doc_next (document (browser s1)) /\
       exists new,
         linkElementsToUnmount s1 = linkElementsToUnmount s ++ new /\
         doc_head (document (browser s1)) = doc_head (document (browser s)) ++ map fst new /\
         Forall (fun entry => doc_next (document (browser s)) <= node_id (fst entry)) new)).
  - intros c s1 Hc (Hb & Hm & Hn & new & Hq & Hh & Hnew).
    destruct (mount_step_cases a c s1) as [(el & _ & ->) | [(_ & _ & ->) | (_ & ->)]]; cbn.
    + split; [exact Hb | split; [exact Hm | split; [exact Hn |]]]. exists new. auto.
    + split; [exact Hb | split; [exact Hm | split; [lia |]]].
      rewrite (Hflags c Hc).
      eexists (new ++ [(_, _)]). rewrite Hq, Hh, map_app, <- !app_assoc.
      split; [reflexivity | split; [reflexivity |]].
      apply Forall_app. split; [exact Hnew |]. apply Forall_singleton. cbn. exact Hn.
    + split; [exact Hb | split; [exact Hm | split; [exact Hn |]]]. exists new. auto.
  - split; [reflexivity | split; [reflexivity | split; [lia |]]].
    exists []. rewrite !app_nil_r. auto.
Qed.

(** X12: a whole cycle restores the document.  In a well-formed document,
    with nothing queued and no microtask pending, for an array all of whose
    references have a truthy flag: after [mount], [unmount] and its
    microtasks, [head] and the rest of the tree hold exactly the elements
    they held before [mount], in the same order, and the queue and the
    microtask queue are empty again.  Every element [mount] created is
    gone, every element it adopted is still there. *)
Theorem mount_then_unmount_restores_document (a : Adapter) (s : State) :
  doc_wf (document (browser s)) ->
  linkElementsToUnmount s = [] ->
  microtasks (browser s) = [] ->
  (forall c, In c (stylesheets a s) -> truthy (snd (extractUrl (opts a) c)) = true) ->
  let s1 := snd (mount a s) in
  let s' := snd (drain_microtasks (snd (unmount a s1))) in
  doc_head (document (browser s')) = doc_head (document (browser s)) /\
  doc_body (document (browser s')) = doc_body (document (browser s)) /\
  linkElementsToUnmount s' = [] /\
  microtasks (browser s') = [].
Proof.
  intros Hwf Hq0 Hm0 Hflags.
  destruct (mount_queues_what_it_creates a s Hflags) as (Hb & Hm & Hn & new & Hq & Hh & Hnew).
  cbn zeta.
  destruct (snd (mount a s)) as [[ar d ps ls ms se] reg q].
  cbn [browser document microtasks linkElementsToUnmount] in *.
  rewrite Hq0 in Hq. cbn in Hq. subst q. rewrite Hm0 in Hm. subst ms.
  destruct (unmount_eq a ar d ps ls [] se reg new) as (jobs & Heq & Hpairs & _).
  rewrite Heq. cbn [snd]. rewrite drain_eq. cbn [app].
  destruct (run_jobs jobs ar d (ps ++ replicate (length new) Pending) ls se reg [])
    as (Hempty & Hqueue & Hd & _). cbn zeta in *.
  rewrite Hd. cbn [doc_head doc_body].
  assert (Hels : map job_linkEl jobs = map fst new).
  { rewrite <- Hpairs, map_map. reflexivity. }
  assert (Hfresh : forall k, In k jobs -> doc_next (document (browser s)) <= node_id (job_linkEl k)).
  { intros k Hk. rewrite Forall_forall in Hnew.
    assert (Hin : In (job_linkEl k, job_url k) new).
    { rewrite <- Hpairs. apply (in_map (fun j => (job_linkEl j, job_url j))). exact Hk. }
    apply (Hnew _ (proj2 (list_elem_of_In _ _) Hin)). }
  assert (Hold : forall x, In x (doc_elements (document (browser s))) ->
            negb (existsb (fun k => same_node (job_linkEl k) x) jobs) = true).
  { intros x Hx. apply negb_true_iff, existsb_false_iff. intros k Hk.
    unfold doc_wf in Hwf. rewrite Forall_forall in Hwf.
    pose proof (Hwf x (proj2 (list_elem_of_In _ _) Hx)) as Hlt.
    pose proof (Hfresh k Hk) as Hge.
    unfold same_node. apply Nat.eqb_neq. lia. }
  assert (Hcreated : forall x, In x (map fst new) ->
            negb (existsb (fun k => same_node (job_linkEl k) x) jobs) = false).
  { intros x Hx. apply negb_false_iff, existsb_exists.
    rewrite <- Hels in Hx. apply in_map_iff in Hx. destruct Hx as (k & <- & Hk).
    exists k. split; [exact Hk |]. unfold same_node. apply Nat.eqb_refl. }
  unfold doc_elements in Hold.
  split; [| split; [| split; [exact Hqueue | exact Hempty]]].
  - rewrite Hh, List.filter_app.
    rewrite filter_all_true by (intros x Hx; apply Hold, in_or_app; auto).
    rewrite filter_all_false by exact Hcreated. apply app_nil_r.
  - rewrite Hb. apply filter_all_true. intros x Hx. apply Hold, in_or_app. auto.
Qed.

(** ** Load events *)

(** An event changes the promise table and nothing else. *)
Lemma dispatchEvent_frame (ty : EventType) (node : nat) (s : State) :
  exists table,
    snd (dispatchEvent ty node s) = with_browser (with_promises (fun _ => table)) s.
Proof.
  rewrite dispatchEvent_unfold.
  apply (mapM_invariant _
           (fun s1 => exists table, s1 = with_browser (with_promises (fun _ => table)) s)).
  - intros l s1 _ (table & ->).
    destruct (_ && _); cbn; eexists; reflexivity.
  - exists (promises (browser s)). destruct s as [[ar d ps ls ms se] reg q]. reflexivity.
Qed.

Lemma dispatchEvent_listeners (ty : EventType) (node : nat) (s : State) :
  listeners (browser (snd (dispatchEvent ty node s))) = listeners (browser s).
Proof. destruct (dispatchEvent_frame ty node s) as (table & ->). reflexivity. Qed.

Lemma dispatchEvent_keeps_fulfilled (ty : EventType) (node p : nat) (s : State) :
  promises (browser s) !! p = Some Fulfilled ->
  promises (browser (snd (dispatchEvent ty node s))) !! p = Some Fulfilled.
Proof.
  rewrite dispatchEvent_unfold.
  apply (mapM_invariant _ (fun s1 => promises (browser s1) !! p = Some Fulfilled)).
  intros l s1 _ Hp. destruct (_ && _); [| exact Hp]. cbn.
  apply settle_keeps_fulfilled, Hp.
Qed.

Lemma dispatchEvent_keeps_unsettled (ty : EventType) (node p : nat) (s : State) :
  promises (browser s) !! p = Some Pending \/ promises (browser s) !! p = Some Fulfilled ->
  promises (browser (snd (dispatchEvent ty node s))) !! p = Some Pending \/
  promises (browser (snd (dispatchEvent ty node s))) !! p = Some Fulfilled.
Proof.
  rewrite dispatchEvent_unfold.
  apply (mapM_invariant _
           (fun s1 => promises (browser s1) !! p = Some Pending \/
                      promises (browser s1) !! p = Some Fulfilled)).
  intros l s1 _ Hp. destruct (_ && _); [| exact Hp]. cbn.
  apply settle_pending_or_fulfilled, Hp.
Qed.

Lemma loads_keep_fulfilled (a : Adapter) (nodes : list nat) (p : nat) :
  forall s, promises (browser s) !! p = Some Fulfilled ->
            promises (browser (snd (run a (map (Dispatch LoadEvent) nodes) s))) !! p
            = Some Fulfilled.
Proof.
  induction nodes as [| m rest IH]; intros s Hp; [exact Hp |].
  cbn [map]. rewrite run_cons_snd. apply IH. cbn [step].
  apply dispatchEvent_keeps_fulfilled, Hp.
Qed.

(** A promise with a [load] listener on a node is fulfilled once a [load]
    event has reached every node of a list that holds that node. *)
Lemma loads_fulfil (a : Adapter) (nodes : list nat) (n p : nat) :
  forall s,
    In n nodes ->
    In {| lis_target := n; lis_type := LoadEvent; lis_resolves := p |} (listeners (browser s)) ->
    promises (browser s) !! p = Some Pending \/ promises (browser s) !! p = Some Fulfilled ->
    promises (browser (snd (run a (map (Dispatch LoadEvent) nodes) s))) !! p = Some Fulfilled.
Proof.
  induction nodes as [| m rest IH]; intros s Hn Hl Hp; [destruct Hn |].
  cbn [map]. rewrite run_cons_snd. cbn [step].
  destruct (decide (m = n)) as [-> | Hne].
  - apply loads_keep_fulfilled.
    destruct Hp as [Hp | Hp].
    + apply load_event_fulfils; assumption.
    + apply dispatchEvent_keeps_fulfilled, Hp.
  - apply IH.
    + destruct Hn as [Heq | Hn]; [contradiction | exact Hn].
    + rewrite dispatchEvent_listeners. exact Hl.
    + apply dispatchEvent_keeps_unsettled, Hp.
Qed.

(** Every promise [mount] returns is fulfilled, or rejected, or pending
    with a [load] listener on a node that [mount] created. *)
Lemma mount_promises_await_loads (a : Adapter) (s : State) :
  let lo := doc_next (document (browser s)) in
  let s1 := snd (mount a s) in
  Forall (fun p =>
            promises (browser s1) !! p = Some Fulfilled \/
            promises (browser s1) !! p = Some Rejected \/
            (promises (browser s1) !! p = Some Pending /\
             exists n, lo <= n < doc_next (document (browser s1)) /\
                       In {| lis_target := n; lis_type := LoadEvent; lis_resolves := p |}
                          (listeners (browser s1))))
    (fst (mount a s)).
Proof.
  cbn zeta. rewrite mount_unfold.
  apply (mapM_results _
           (fun s1 => doc_next (document (browser s)) <= doc_next (document (browser s1)))
           (fun p s1 =>
              promises (browser s1) !! p = Some Fulfilled \/
              promises (browser s1) !! p = Some Rejected \/
              (promises (browser s1) !! p = Some Pending /\
               exists n, doc_next (document (browser s)) <= n < doc_next (document (browser s1)) /\
                         In {| lis_target := n; lis_type := LoadEvent; lis_resolves := p |}
                            (listeners (browser s1))))); [| | lia].
  - intros c s1 _ Hlo.
    destruct (mount_step_allocates a c s1) as [-> _].
    destruct (mount_step_cases a c s1) as [(el & _ & ->) | [(_ & _ & ->) | (_ & ->)]]; cbn.
    + split; [exact Hlo |]. left. apply settle_new.
    + split; [lia |]. right. right. split.
      * rewrite lookup_app_r by lia. rewrite Nat.sub_diag. reflexivity.
      * exists (doc_next (document (browser s1))). split; [lia |].
        apply in_or_app. right. left. reflexivity.
    + split; [exact Hlo |]. right. left.
      rewrite lookup_app_r by lia. rewrite Nat.sub_diag. reflexivity.
  - intros c p s1 _ Hlo Hp.
    assert (Hlt : p < length (promises (browser s1))).
    { destruct Hp as [Hp | [Hp | [Hp _]]]; apply lookup_lt_Some in Hp; exact Hp. }
    rewrite (mount_step_old_promises a c s1 p Hlt).
    destruct Hp as [Hp | [Hp | (Hp & n & Hn & Hl)]]; [left; exact Hp | right; left; exact Hp |].
    right. right. split; [exact Hp |]. exists n.
    destruct (mount_step_cases a c s1) as [(el & _ & ->) | [(_ & _ & ->) | (_ & ->)]]; cbn.
    + auto.
    + split; [lia |]. apply in_or_app. left. exact Hl.
    + auto.
Qed.

(** X13: when no executor of [mount] has thrown -- no promise that [mount]
    returned is rejected -- the promise of [mount] is fulfilled once every
    element it created has loaded.  After [mount], let a [load] event reach
    each node created during the call, in the order of creation: then
    every promise [mount] returned is fulfilled, and so is their
    [Promise.all]. *)
Theorem mount_resolves_once_every_link_has_loaded (a : Adapter) (s : State) :
  Forall (fun p => promises (browser (snd (mount a s))) !! p <> Some Rejected)
    (fst (mount a s)) ->
  let r := mount a s in
  let loads := load_events (doc_next (document (browser s)))
                 (doc_next (document (browser (snd r)))) in
  let s' := snd (run a loads (snd r)) in
  Forall (fun p => promises (browser s') !! p = Some Fulfilled) (fst r) /\
  Promise_all (promises (browser s')) (fst r) = Fulfilled.
Proof.
  intros Hnone. cbn zeta.
  assert (Hall : Forall (fun p =>
            promises (browser
              (snd (run a (load_events (doc_next (document (browser s)))
                             (doc_next (document (browser (snd (mount a s))))))
                      (snd (mount a s))))) !! p = Some Fulfilled) (fst (mount a s))).
  { pose proof (mount_promises_await_loads a s) as Hawait. cbn zeta in Hawait.
    rewrite Forall_forall in *. intros p Hp.
    destruct (Hawait p Hp) as [Hf | [Hr | (Hpend & n & Hn & Hl)]]; unfold load_events.
    - apply loads_keep_fulfilled, Hf.
    - exfalso. apply (Hnone p Hp Hr).
    - apply (loads_fulfil a _ n); [| exact Hl | left; exact Hpend].
      apply in_seq. lia. }
  split; [exact Hall | apply Promise_all_fulfilled, Hall].
Qed.

(** ** Construction, once more *)

(** X14: the list a new adapter iterates over.  For a configuration whose
    [cssUrls] array holds [urls]: with [webpackExtractedCss] off (or
    absent) the adapter's stylesheets are [urls]; with it on they are
    [urls] followed by one bare-string reference for each webpack asset, in
    order, its URL being the public path followed by the asset's file name.
    Construction starts from an empty registry and an empty queue, and
    touches neither the document nor the promises, listeners and
    microtasks, nor any other array. *)
Theorem construction_appends_webpack_assets
    (wp : Webpack) (c : Given.SingleSpaCssOpts) (b : Browser) (urls : list CssUrl) :
  arrays b !! Given.cssUrls c = Some urls ->
  let r := singleSpaCss wp c b in
  stylesheets (fst r) (snd r)
  = (if default false (Given.webpackExtractedCss c)
     then urls ++ map (fun fileName =>
                         CssUrlString (webpack_public_path wp
                                       +:+ webpack_cssAssetFileName wp fileName))
                    (webpack_cssAssets wp)
     else urls) /\
  (forall l, l <> Given.cssUrls c -> arrays (browser (snd r)) !! l = arrays b !! l) /\
  document (browser (snd r)) = document b /\
  promises (browser (snd r)) = promises b /\
  listeners (browser (snd r)) = listeners b /\
  microtasks (browser (snd r)) = microtasks b /\
  linkElements (snd r) = ∅ /\
  linkElementsToUnmount (snd r) = [].
Proof.
  intros Hurls. cbn zeta. unfold stylesheets.
  rewrite singleSpaCss_arrays.
  unfold singleSpaCss. cbn.
  destruct (Given.webpackExtractedCss c) as [[|] |]; cbn.
  - unfold array_push. rewrite lookup_alter_eq, Hurls. cbn.
    split; [reflexivity |]. split; [| repeat split].
    intros l Hl. apply lookup_alter_ne. auto.
  - rewrite Hurls. repeat split.
  - rewrite Hurls. repeat split.
Qed.

(** ** Error events *)

Lemma mapM_skips {A} (f : A -> M unit) (l : list A) (s : State) :
  (forall x, In x l -> f x s = (tt, s)) -> snd (mapM f l s) = s.
Proof.
  induction l as [| x rest IH]; intros H; [reflexivity |].
  rewrite mapM_cons, (H x (or_introl eq_refl)). cbn [snd].
  apply IH. intros y Hy. apply H. right. exact Hy.
Qed.

(** Every step keeps the listeners [load] listeners. *)
Lemma step_keeps_load_listeners (a : Adapter) (act : Action) (s : State) :
  Forall (fun l => lis_type l = LoadEvent) (listeners (browser s)) ->
  Forall (fun l => lis_type l = LoadEvent) (listeners (browser (snd (step a act s)))).
Proof.
  intros Hl. destruct act; cbn [step]; rewrite ?snd_then_ret.
  - destruct (bootstrap_frame a s) as (_ & -> & _). exact Hl.
  - rewrite mount_unfold.
    apply (mapM_invariant _
             (fun s1 => Forall (fun l => lis_type l = LoadEvent) (listeners (browser s1))));
      [| exact Hl].
    intros c s1 _ Hl1.
    destruct (mount_step_cases a c s1) as [(el & _ & ->) | [(_ & _ & ->) | (_ & ->)]]; cbn;
      [exact Hl1 | | exact Hl1].
    apply Forall_app. split; [exact Hl1 | apply Forall_singleton; reflexivity].
  - destruct s as [[ar d ps ls ms se] reg q].
    destruct (unmount_eq a ar d ps ls ms se reg q) as (new & -> & _). exact Hl.
  - destruct s as [[ar d ps ls ms se] reg q]. destruct ms as [| j rest]; [exact Hl |].
    assert (Hstep : run_microtask (mkState (mkBrowser ar d ps ls (j :: rest) se) reg q)
                    = run_job j (mkState (mkBrowser ar d ps ls rest se) reg q)) by reflexivity.
    rewrite Hstep, run_job_eq. exact Hl.
  - rewrite dispatchEvent_listeners. exact Hl.
Qed.

Lemma run_keeps_load_listeners (a : Adapter) (trace : list Action) :
  forall s,
    Forall (fun l => lis_type l = LoadEvent) (listeners (browser s)) ->
    Forall (fun l => lis_type l = LoadEvent) (listeners (browser (snd (run a trace s)))).
Proof.
  induction trace as [| act rest IH]; intros s Hl; [exact Hl |].
  rewrite run_cons_snd. apply IH, step_keeps_load_listeners, Hl.
Qed.

(** X15: the adapter never reacts to an [error] event.  From a state whose
    listeners are [load] listeners -- the state of a new adapter, for one --
    and after any sequence of lifecycle calls, microtasks and events, an
    [error] event at any node leaves the whole state as it is: no promise
    is settled, nothing is removed, nothing is queued. *)
Theorem error_events_change_nothing
    (a : Adapter) (trace : list Action) (node : nat) (s : State) :
  Forall (fun l => lis_type l = LoadEvent) (listeners (browser s)) ->
  let s' := snd (run a trace s) in
  dispatchEvent ErrorEvent node s' = (tt, s').
Proof.
  intros Hl. cbn zeta.
  pose proof (run_keeps_load_listeners a trace s Hl) as Hl'.
  set (s' := snd (run a trace s)) in *.
  assert (Hsnd : snd (dispatchEvent ErrorEvent node s') = s').
  { rewrite dispatchEvent_unfold. apply mapM_skips.
    intros l Hin. rewrite Forall_forall in Hl'.
    rewrite (Hl' l (proj2 (list_elem_of_In _ _) Hin)). cbn.
    rewrite andb_false_r. reflexivity. }
  destruct (dispatchEvent ErrorEvent node s') as [[] s2]. cbn in Hsnd. rewrite Hsnd.
  reflexivity.
Qed.

(** ** One element for each URL *)



(** ** One hint for each URL *)

Lemma bootstrap_creates_distinct (a : Adapter) (s : State) :
  (forall c, In c (stylesheets a s) -> plain (fst (extractUrl (opts a) c))) ->
  let s1 := snd (bootstrap a s) in
  doc_body (document (browser s1)) = doc_body (document (browser s)) /\
  exists cs : list (nat * string),
    doc_head (document (browser s1))
    = doc_head (document (browser s)) ++ map (fun nu => preload_hint (fst nu) (snd nu)) cs /\
    NoDup (map snd cs) /\
    forall nu, In nu cs ->
      query (preload_selector (snd nu)) s = None /\
      exists c, In c (stylesheets a s) /\ fst (extractUrl (opts a) c) = snd nu.
Proof.
  intros Hplain. cbn zeta. rewrite bootstrap_unfold.
  apply (mapM_invariant _
    (fun s1 =>
       doc_body (document (browser s1)) = doc_body (document (browser s)) /\
       exists cs : list (nat * string),
         doc_head (document (browser s1))
         = doc_head (document (browser s))
           ++ map (fun nu => preload_hint (fst nu) (snd nu)) cs /\
         NoDup (map snd cs) /\
         forall nu, In nu cs ->
           query (preload_selector (snd nu)) s = None /\
           exists c, In c (stylesheets a s) /\ fst (extractUrl (opts a) c) = snd nu)).
  - intros c s1 Hc (Hb & cs & Hh & Hnd & Hcs).
    pose proof (preload_query_plain _ s1 (Hplain c Hc)) as Hsel.
    destruct (bootstrap_step_cases a c s1) as [(el & _ & ->) | [(Hq & ->) | (_ & ->)]]; cbn.
    + split; [exact Hb |]. exists cs. auto.
    + split; [exact Hb |].
      set (u := fst (extractUrl (opts a) c)) in *.
      rewrite Hq in Hsel. injection Hsel as Hsel.
      assert (Hnone : query (preload_selector u) s1 = None) by (symmetry; exact Hsel).
      unfold query, doc_elements in Hnone. rewrite Hh, Hb in Hnone.
      apply find_none_after_added in Hnone. destruct Hnone as [Hnone0 Hadded].
      exists (cs ++ [(doc_next (document (browser s1)), u)]).
      rewrite Hh, map_app, <- app_assoc. split; [reflexivity |]. split.
      * rewrite map_app. cbn. apply NoDup_app. split; [exact Hnd |].
        split; [| apply NoDup_singleton].
        intros v Hv Hin. apply list_elem_of_In in Hin. destruct Hin as [<- | []].
        apply list_elem_of_In, in_map_iff in Hv. destruct Hv as ([n v] & Hv & Hin).
        cbn in Hv. subst v.
        assert (Hm : matches (preload_selector u) (preload_hint n u) = false).
        { apply Hadded. apply in_map_iff. exists (n, u). auto. }
        rewrite matches_preload_hint in Hm. discriminate.
      * intros nu Hin. apply in_app_or in Hin. destruct Hin as [Hin | [<- | []]].
        -- apply Hcs, Hin.
        -- cbn. split; [exact Hnone0 | exists c; auto].
    + split; [exact Hb |]. exists cs. auto.
  - split; [reflexivity |]. exists []. cbn. rewrite app_nil_r.
    split; [reflexivity | split; [apply NoDup_nil_2 | intros nu []]].
Qed.

(** X17: a URL is hinted once, however often the array lists it.  For an
    array whose URLs the selector text takes as they are, the elements
    [bootstrap] appends to [head] are the preload hints of a list of URLs
    without repetition; those URLs are exactly the URLs of the array for
    which [querySelector] found no preload hint in the document. *)
Theorem bootstrap_creates_one_hint_per_missing_url (a : Adapter) (s : State) :
  (forall c, In c (stylesheets a s) -> plain (fst (extractUrl (opts a) c))) ->
  let s1 := snd (bootstrap a s) in
  exists cs : list (nat * string),
    doc_head (document (browser s1))
    = doc_head (document (browser s)) ++ map (fun nu => preload_hint (fst nu) (snd nu)) cs /\
    NoDup (map snd cs) /\
    forall u, In u (map snd cs) <->
              (preload_query u s = Selected None /\
               exists c, In c (stylesheets a s) /\ fst (extractUrl (opts a) c) = u).
Proof.
  intros Hplain. cbn zeta.
  destruct (bootstrap_creates_distinct a s Hplain) as (Hb & cs & Hh & Hnd & Hcs).
  exists cs. split; [exact Hh | split; [exact Hnd |]].
  intros u. split.
  - intros Hu. apply in_map_iff in Hu. destruct Hu as (nu & <- & Hin).
    destruct (Hcs nu Hin) as (Hnone & c & Hc & Hurl).
    split; [| exists c; auto].
    rewrite <- Hurl, (preload_query_plain _ _ (Hplain c Hc)), Hurl, Hnone. reflexivity.
  - intros (Hnone & c & Hc & <-).
    rewrite (preload_query_plain _ _ (Hplain c Hc)) in Hnone. injection Hnone as Hnone.
    pose proof (bootstrap_hints_present a s c Hc (Hplain c Hc)) as Hfound.
    destruct (query _ (snd (bootstrap a s))) as [el |] eqn:Hq; [| contradiction].
    unfold query in Hq. apply find_some in Hq. destruct Hq as [Hin Hm].
    unfold doc_elements in Hin. rewrite Hh, Hb in Hin.
    rewrite !in_app_iff in Hin.
    assert (Hold : forall x, In x (doc_elements (document (browser s))) ->
                     matches (preload_selector (fst (extractUrl (opts a) c))) x = false).
    { intros x Hx. apply (find_none _ _ Hnone x Hx). }
    unfold doc_elements in Hold.
    destruct Hin as [[Hin | Hin] | Hin].
    + rewrite (Hold el) in Hm by (apply in_or_app; auto). discriminate.
    + apply in_map_iff in Hin. destruct Hin as ([n v] & <- & Hin). cbn [fst snd] in *.
      pose proof (matches_preload_href _ _ Hm) as H1.
      pose proof (matches_preload_href _ _ (matches_preload_hint n v)) as H2.
      rewrite H1 in H2. injection H2 as <-.
      apply in_map_iff. exists (n, fst (extractUrl (opts a) c)). auto.
    + rewrite (Hold el) in Hm by (apply in_or_app; auto). discriminate.
Qed.

(** ** The further statements at the sample pages *)

(** The selector text takes the URLs of the sample arrays as they are. *)
Lemma sample_urls_plain (d : Document) :
  forall c, In c (stylesheets sample_adapter (sample_state d)) ->
            plain (fst (extractUrl (opts sample_adapter) c)).
Proof. intros c [<- | [<- | []]]; reflexivity. Qed.

Lemma flagged_urls_plain (d : Document) :
  forall c, In c (stylesheets sample_adapter (flagged_state d)) ->
            plain (fst (extractUrl (opts sample_adapter) c)).
Proof. intros c [<- | [<- | [<- | []]]]; reflexivity. Qed.

Lemma bootstrap_resolves_at_once_witness :
  let a := sample_adapter in
  let s := sample_state empty_document in
  let r := bootstrap a s in
  (forall c, In c (stylesheets a s) -> readable (fst (extractUrl (opts a) c))) /\
  Forall (fun p => promises (browser (snd r)) !! p = Some Fulfilled) (fst r) /\
  Promise_all (promises (browser (snd r))) (fst r) = Fulfilled.
Proof.
  cbv zeta.
  assert (Hread : forall c, In c (stylesheets sample_adapter (sample_state empty_document)) ->
                    readable (fst (extractUrl (opts sample_adapter) c))).
  { intros c Hc. apply plain_readable, (sample_urls_plain empty_document c Hc). }
  split; [exact Hread |].
  exact (proj1 (proj2 (proj2 (bootstrap_resolves_at_once sample_adapter
                                (sample_state empty_document)))) Hread).
Defined.


Lemma bootstrap_inserts_hints_once_witness :
  let a := sample_adapter in
  let s := sample_state empty_document in
  (forall c, In c (stylesheets a s) -> plain (fst (extractUrl (opts a) c))) /\
  document (browser (snd (bootstrap a (snd (bootstrap a s)))))
  = document (browser (snd (bootstrap a s))).
Proof.
  cbv zeta. split; [exact (sample_urls_plain empty_document) |].
  exact (proj2 (bootstrap_inserts_hints_once sample_adapter (sample_state empty_document))
           (sample_urls_plain empty_document)).
Defined.

(** By evaluation: for a URL with a backslash the second [bootstrap] does
    not find the hint of the first, and appends another. *)
Example bootstrap_twice_with_a_backslash_hints_twice :
  let a := sample_adapter in
  let s := state_over [CssUrlString backslash_url] empty_document in
  let s2 := snd (bootstrap a (snd (bootstrap a s))) in
  doc_elements (document (browser s2))
  = [preload_hint 0 backslash_url; preload_hint 1 backslash_url].
Proof. vm_compute. reflexivity. Qed.




Lemma unmount_tolerates_detached_elements_witness :
  let a := sample_adapter in
  let s := state_with_detached_element in
  let r := unmount a s in
  let s' := snd (drain_microtasks (snd r)) in
  (forall e u, In (e, u) (linkElementsToUnmount s) ->
               existsb (same_node e) (doc_elements (document (browser s))) = false) /\
  (forall k, In k (microtasks (browser s)) ->
             existsb (same_node (job_linkEl k)) (doc_elements (document (browser s))) = false) /\
  document (browser s') = document (browser s) /\
  linkElementsToUnmount s' = [] /\
  microtasks (browser s') = [] /\
  (forall e u, In (e, u) (linkElementsToUnmount s) -> linkElements s' !! u = None) /\
  Promise_all (promises (browser s')) (fst r) = Fulfilled.
Proof.
  cbv zeta.
  assert (Hq : forall e u, In (e, u) (linkElementsToUnmount state_with_detached_element) ->
            existsb (same_node e)
              (doc_elements (document (browser state_with_detached_element))) = false).
  { intros e u [Heq | []]. injection Heq as <- <-. reflexivity. }
  assert (Hms : forall k, In k (microtasks (browser state_with_detached_element)) ->
            existsb (same_node (job_linkEl k))
              (doc_elements (document (browser state_with_detached_element))) = false).
  { intros k []. }
  split; [exact Hq | split; [exact Hms |]].
  exact (unmount_tolerates_detached_elements sample_adapter state_with_detached_element
           Hq Hms).
Defined.

Lemma mount_then_unmount_restores_document_witness :
  let a := sample_adapter in
  let s := flagged_state page_with_a_css in
  let s1 := snd (mount a s) in
  let s' := snd (drain_microtasks (snd (unmount a s1))) in
  doc_wf (document (browser s)) /\
  linkElementsToUnmount s = [] /\
  microtasks (browser s) = [] /\
  (forall c, In c (stylesheets a s) -> truthy (snd (extractUrl (opts a) c)) = true) /\
  doc_head (document (browser s')) = doc_head (document (browser s)) /\
  doc_body (document (browser s')) = doc_body (document (browser s)) /\
  linkElementsToUnmount s' = [] /\
  microtasks (browser s') = [].
Proof.
  cbv zeta.
  assert (Hwf : doc_wf (document (browser (flagged_state page_with_a_css)))).
  { apply Forall_cons. split; [cbn; lia | apply Forall_nil_2]. }
  assert (Hflags : forall c, In c (stylesheets sample_adapter (flagged_state page_with_a_css)) ->
            truthy (snd (extractUrl (opts sample_adapter) c)) = true).
  { intros c [<- | [<- | [<- | []]]]; reflexivity. }
  split; [exact Hwf | split; [reflexivity | split; [reflexivity | split; [exact Hflags |]]]].
  exact (mount_then_unmount_restores_document sample_adapter (flagged_state page_with_a_css)
           Hwf eq_refl eq_refl Hflags).
Defined.

Lemma mount_resolves_once_every_link_has_loaded_witness :
  let a := sample_adapter in
  let s := sample_state page_with_a_css in
  let r := mount a s in
  let loads := load_events (doc_next (document (browser s)))
                 (doc_next (document (browser (snd r)))) in
  let s' := snd (run a loads (snd r)) in
  Forall (fun p => promises (browser (snd (mount a s))) !! p <> Some Rejected)
    (fst (mount a s)) /\
  Promise_all (promises (browser (snd r))) (fst r) = Pending /\
  Forall (fun p => promises (browser s') !! p = Some Fulfilled) (fst r) /\
  Promise_all (promises (browser s')) (fst r) = Fulfilled.
Proof.
  cbv zeta.
  assert (Hnone : Forall (fun p => promises (browser (snd (mount sample_adapter
                                      (sample_state page_with_a_css)))) !! p <> Some Rejected)
                    (fst (mount sample_adapter (sample_state page_with_a_css)))).
  { repeat constructor; discriminate. }
  split; [exact Hnone | split; [reflexivity |]].
  exact (mount_resolves_once_every_link_has_loaded sample_adapter
           (sample_state page_with_a_css) Hnone).
Defined.

Lemma construction_appends_webpack_assets_witness :
  let c := Given.mk 1%nat (Some true) None None None in
  let b := browser_with sample_urls empty_document in
  let r := singleSpaCss sample_webpack c b in
  arrays b !! Given.cssUrls c = Some sample_urls /\
  stylesheets (fst r) (snd r) = sample_urls ++ [CssUrlString "/static/main.css"] /\
  (forall l, l <> Given.cssUrls c -> arrays (browser (snd r)) !! l = arrays b !! l) /\
  document (browser (snd r)) = document b /\
  promises (browser (snd r)) = promises b /\
  listeners (browser (snd r)) = listeners b /\
  microtasks (browser (snd r)) = microtasks b /\
  linkElements (snd r) = ∅ /\
  linkElementsToUnmount (snd r) = [].
Proof.
  cbv zeta. split; [reflexivity |].
  exact (construction_appends_webpack_assets sample_webpack
           (Given.mk 1%nat (Some true) None None None)
           (browser_with sample_urls empty_document) sample_urls eq_refl).
Defined.

Lemma error_events_change_nothing_witness :
  let a := sample_adapter in
  let s := sample_state empty_document in
  let s' := snd (run a [CallBootstrap; CallMount; Dispatch LoadEvent 3; CallUnmount] s) in
  Forall (fun l => lis_type l = LoadEvent) (listeners (browser s)) /\
  dispatchEvent ErrorEvent 2 s' = (tt, s').
Proof.
  cbv zeta.
  assert (Hl : Forall (fun l => lis_type l = LoadEvent)
                 (listeners (browser (sample_state empty_document))))
    by apply Forall_nil_2.
  split; [exact Hl |].
  exact (error_events_change_nothing sample_adapter
           [CallBootstrap; CallMount; Dispatch LoadEvent 3; CallUnmount] 2
           (sample_state empty_document) Hl).
Defined.


Lemma bootstrap_creates_one_hint_per_missing_url_witness :
  let a := sample_adapter in
  let s := flagged_state page_with_a_css in
  let s1 := snd (bootstrap a s) in
  (forall c, In c (stylesheets a s) -> plain (fst (extractUrl (opts a) c))) /\
  exists cs : list (nat * string),
    doc_head (document (browser s1))
    = doc_head (document (browser s)) ++ map (fun nu => preload_hint (fst nu) (snd nu)) cs /\
    NoDup (map snd cs) /\
    forall u, In u (map snd cs) <->
              (preload_query u s = Selected None /\
               exists c, In c (stylesheets a s) /\ fst (extractUrl (opts a) c) = u).
Proof.
  cbv zeta. split; [exact (flagged_urls_plain page_with_a_css) |].
  exact (bootstrap_creates_one_hint_per_missing_url sample_adapter
           (flagged_state page_with_a_css) (flagged_urls_plain page_with_a_css)).
Defined.

(** By evaluation: ["a.css"], listed twice and already in the page, is
    adopted twice; only ["b.css"] gets an element, and the whole cycle
    brings the document back. *)
Example cycle_on_page_with_a_css :
  let a := sample_adapter in
  let s := flagged_state page_with_a_css in
  let s1 := snd (mount a s) in
  let s' := snd (drain_microtasks (snd (unmount a s1))) in
  doc_elements (document (browser s1))
  = [created 1 (createLink defaultOptions) "b.css"; stylesheet_link 0 "a.css"] /\
  linkElementsToUnmount s1 = [(created 1 (createLink defaultOptions) "b.css", "b.css")] /\
  doc_elements (document (browser s')) = [stylesheet_link 0 "a.css"] /\
  linkElements s' !! "a.css" = Some (stylesheet_link 0 "a.css") /\
  linkElements s' !! "b.css" = None.
Proof. vm_compute. repeat split. Qed.

(** ** A selector text that is no selector *)





(** ** Adoption of one link *)







